(** * Come_Soon_Server: subscriber lifecycle of the "coming soon" backend

    A shallow embedding of the two Express/Mongoose servers of the
    repository: [src/server.js] (the global fixed-delay broadcast, module
    [VariantA]) and [src/unnamed/part_000] (the per-subscription delayed
    broadcast, module [VariantB]).

    Asynchronous handlers are written in a state-and-exception monad over a
    [World] that holds the MongoDB collection, the mails accepted by the
    transport, the console, the clock and the pending timers.  The outcome
    of each store call and of each [sendMail] call is read from an oracle
    carried by the world, so that every [catch] branch of the source is
    reachable in the model.

    What the model takes from the libraries the servers call:
    - the unique index on [email] rejects a second document with the same
      address with error code 11000;
    - Mongoose's [strict] schema option is left at its default, so a path
      the schema does not declare is removed from an update and reads as
      [undefined] on a document;
    - [currentTime - startTime] coerces its operands as ECMAScript's
      ToNumber does;
    - [req.body] is the object [express.json()] parsed, or [undefined]
      when it parsed none and left [req.body] unset.

    A request handler runs to its end before the next event.  A broadcast
    is modelled twice, in both servers: running to its end ([fire]), and as
    a task that requests and other broadcasts interleave with at each
    [await] ([resume]); [run_task_is_the_pass] and [A_run_task_is_the_pass]
    relate the two. *)

From Stdlib Require Import String Ascii List ZArith QArith Bool Lia Arith.
From Stdlib Require Import RelationClasses.
Import ListNotations.
Open Scope string_scope.
Open Scope Z_scope.

(** ** JavaScript numbers and the coercion of [currentTime - startTime] *)

Module Js.

(** A Number is NaN, an infinity or a finite value.  Finite values are exact
    rationals: the rounding of IEEE doubles is not modelled.  On whole
    numbers of milliseconds that a double holds exactly the exact difference
    and the rounded one compare alike with a whole limit; the statements
    that need the test of line 97 to hold take such operands. *)
Inductive Number :=
| NaN
| Infinity (negative : bool)
| Finite (q : Q).

Inductive Value :=
| Undefined
| Null
| Str (s : string)
| Num (n : Number)
| Boolean (b : bool).

Definition is_ws (c : ascii) : bool :=
  match nat_of_ascii c with
  | 9%nat | 10%nat | 11%nat | 12%nat | 13%nat | 32%nat => true
  | _ => false
  end.

Fixpoint trim_left (l : list ascii) : list ascii :=
  match l with
  | c :: l' => if is_ws c then trim_left l' else l
  | [] => []
  end.

Definition trim (l : list ascii) : list ascii :=
  rev (trim_left (rev (trim_left l))).

(** Value of [c] as a digit of the given base (2, 8, 10 or 16). *)
Definition digit_val (base : Z) (c : ascii) : option Z :=
  let n := Z.of_nat (nat_of_ascii c) in
  let d :=
    if (48 <=? n) && (n <=? 57) then Some (n - 48)
    else if (97 <=? n) && (n <=? 102) then Some (n - 87)
    else if (65 <=? n) && (n <=? 70) then Some (n - 55)
    else None in
  match d with
  | Some v => if v <? base then Some v else None
  | None => None
  end.

(** Longest prefix of digits: its value, its length and what follows. *)
Fixpoint read_digits (base : Z) (l : list ascii) (acc : Z) (n : nat)
  : Z * nat * list ascii :=
  match l with
  | c :: l' =>
      match digit_val base c with
      | Some d => read_digits base l' (acc * base + d) (S n)
      | None => (acc, n, l)
      end
  | [] => (acc, n, l)
  end.

Definition all_digits (base : Z) (l : list ascii) : option Z :=
  match read_digits base l 0 0%nat with
  | (v, S _, []) => Some v
  | _ => None
  end.

Definition read_sign (l : list ascii) : bool * list ascii :=
  match l with
  | "+"%char :: r => (false, r)
  | "-"%char :: r => (true, r)
  | _ => (false, l)
  end.

(** ExponentPart, or nothing, up to the end of the literal. *)
Definition read_exponent (l : list ascii) : option Z :=
  match l with
  | [] => Some 0
  | c :: l1 =>
      if (Ascii.eqb c "e" || Ascii.eqb c "E")%bool then
        let (neg, l2) := read_sign l1 in
        match all_digits 10 l2 with
        | Some v => Some (if neg then - v else v)
        | None => None
        end
      else None
  end.

(** StrUnsignedDecimalLiteral. *)
Definition read_unsigned_decimal (l : list ascii) : option Number :=
  if String.eqb (string_of_list_ascii l) "Infinity" then Some (Infinity false)
  else
    let '(i, ni, r1) := read_digits 10 l 0 0%nat in
    let '(f, nf, r2) :=
      match r1 with
      | "."%char :: r => read_digits 10 r 0 0%nat
      | _ => (0, 0%nat, r1)
      end in
    match (ni + nf)%nat with
    | O => None
    | S _ =>
        match read_exponent r2 with
        | Some e =>
            Some (Finite ((inject_Z i + Qmake f (Z.to_pos (10 ^ Z.of_nat nf)))
                          * Qpower (inject_Z 10) e))
        | None => None
        end
    end.

Definition negate (n : Number) : Number :=
  match n with
  | NaN => NaN
  | Infinity s => Infinity (negb s)
  | Finite q => Finite (- q)
  end.

(** StringToNumber (ECMA-262, 7.1.4.1.1) on a string of ASCII characters. *)
Definition StringToNumber (s : string) : Number :=
  match trim (list_ascii_of_string s) with
  | [] => Finite 0
  | "0"%char :: x :: r =>
      let radix :=
        if (Ascii.eqb x "x" || Ascii.eqb x "X")%bool then Some 16
        else if (Ascii.eqb x "o" || Ascii.eqb x "O")%bool then Some 8
        else if (Ascii.eqb x "b" || Ascii.eqb x "B")%bool then Some 2
        else None in
      match radix with
      | Some b =>
          match all_digits b r with
          | Some v => Finite (inject_Z v)
          | None => NaN
          end
      | None =>
          match read_unsigned_decimal ("0"%char :: x :: r) with
          | Some n => n
          | None => NaN
          end
      end
  | l =>
      let (neg, r) := read_sign l in
      match read_unsigned_decimal r with
      | Some n => if neg then negate n else n
      | None => NaN
      end
  end.

Definition ToNumber (v : Value) : Number :=
  match v with
  | Undefined => NaN
  | Null => Finite 0
  | Str s => StringToNumber s
  | Num n => n
  | Boolean b => Finite (if b then 1 else 0)
  end.

(** [a - b] on Numbers. *)
Definition sub (a b : Number) : Number :=
  match a, b with
  | NaN, _ | _, NaN => NaN
  | Infinity s, Infinity t => if Bool.eqb s t then NaN else Infinity s
  | Infinity s, Finite _ => Infinity s
  | Finite _, Infinity t => Infinity (negb t)
  | Finite x, Finite y => Finite (x - y)
  end.

(** [a > b] on Numbers: false as soon as one side is NaN. *)
Definition gt (a b : Number) : bool :=
  match a, b with
  | NaN, _ | _, NaN => false
  | Infinity s, Infinity t => negb s && t
  | Infinity s, Finite _ => negb s
  | Finite _, Infinity t => t
  | Finite x, Finite y => negb (Qle_bool x y)
  end.

Definition ToBoolean (v : Value) : bool :=
  match v with
  | Undefined => false
  | Null => false
  | Str s => negb (String.eqb s "")
  | Num NaN => false
  | Num (Infinity _) => true
  | Num (Finite q) => negb (Qeq_bool q 0)
  | Boolean b => b
  end.

Definition of_ms (t : Z) : Number := Finite (inject_Z t).

(** [Number.isSafeInteger]: the whole numbers a double holds exactly, up to
    [Number.MAX_SAFE_INTEGER]. *)
Definition MAX_SAFE_INTEGER : Z := 2 ^ 53 - 1.

Definition isSafeInteger (t : Z) : Prop :=
  - MAX_SAFE_INTEGER <= t <= MAX_SAFE_INTEGER.

End Js.

(** ** The world the servers run in *)

(** Errors a rejected promise or a failed evaluation can carry. *)
Inductive Err :=
| MongoServerError (code : Z)     (* the store answered with an error code *)
| MongoNetworkError               (* the store could not be reached *)
| TransportError                  (* [transporter.sendMail] rejected *)
| ReferenceError (ident : string) (* an identifier with no binding *)
| TypeError (msg : string)        (* a property read from [undefined] *).

(** [error.code]: only store errors carry a numeric code. *)
Definition err_code (e : Err) : option Z :=
  match e with
  | MongoServerError c => Some c
  | _ => None
  end.

(** [error.code === 11000] *)
Definition is_duplicate_key (e : Err) : bool :=
  match err_code e with
  | Some c => c =? 11000
  | None => false
  end.

(** A document of the [Subscriber] model.  The schema of both servers
    declares exactly the paths [email] and [isComingSoon]. *)
Record Subscriber := mkSubscriber {
  email : string;
  isComingSoon : bool
}.

Definition schema_paths : list string := ["email"; "isComingSoon"].

(** Mail options handed to [transporter.sendMail]; the fixed sender and the
    fixed body texts are left out. *)
Record Mail := mkMail {
  to : string;
  subject : string
}.

Definition confirmation (e : string) : Mail :=
  {| to := e; subject := "Subscription Confirmation" |}.

Definition liveNotification (e : string) : Mail :=
  {| to := e; subject := "Important Update: Website is Now Live!" |}.

(** A pending [setTimeout]: when it is due and the arguments its callback
    passes to [sendLiveNotificationEmails]. *)
Record Timer := mkTimer {
  due : Z;
  args : list Js.Value
}.

Inductive LogLine :=
| Log (msg : string)
| LogError (msg : string) (e : Err).

Record World := mkWorld {
  docs : list Subscriber;   (* the subscribers collection, in insertion order *)
  outbox : list Mail;       (* mails the transport accepted, oldest first *)
  console : list LogLine;
  now : Z;                  (* [Date.now()], in milliseconds *)
  timers : list Timer;
  dbOps : nat;              (* store calls issued so far *)
  mailOps : nat;            (* [sendMail] calls issued so far *)
  dbUp : nat -> bool;       (* does the n-th store call reach the store? *)
  mailUp : nat -> bool      (* does the transport accept the n-th mail? *)
}.

Definition with_docs (d : list Subscriber) (w : World) : World :=
  mkWorld d (outbox w) (console w) (now w) (timers w) (dbOps w) (mailOps w)
          (dbUp w) (mailUp w).

Definition with_timers (t : list Timer) (w : World) : World :=
  mkWorld (docs w) (outbox w) (console w) (now w) t (dbOps w) (mailOps w)
          (dbUp w) (mailUp w).

Definition with_now (t : Z) (w : World) : World :=
  mkWorld (docs w) (outbox w) (console w) t (timers w) (dbOps w) (mailOps w)
          (dbUp w) (mailUp w).

(** ** Promises as a state-and-exception monad *)

Inductive Result (A : Type) :=
| Ok (a : A)
| Throw (e : Err).
Arguments Ok {A} a.
Arguments Throw {A} e.

Definition M (A : Type) : Type := World -> Result A * World.

Definition ret {A} (a : A) : M A := fun w => (Ok a, w).

Definition throw {A} (e : Err) : M A := fun w => (Throw e, w).

Definition bind {A B} (c : M A) (k : A -> M B) : M B :=
  fun w =>
    match c w with
    | (Ok a, w') => k a w'
    | (Throw e, w') => (Throw e, w')
    end.

(** [try { body } catch (error) { handler }] *)
Definition try_catch {A} (body : M A) (handler : Err -> M A) : M A :=
  fun w =>
    match body w with
    | (Ok a, w') => (Ok a, w')
    | (Throw e, w') => handler e w'
    end.

Notation "x <- c ;; k" := (bind c (fun x => k))
  (at level 61, c at next level, right associativity).
Notation "c ;; k" := (bind c (fun _ => k))
  (at level 61, right associativity).

(** [for (const x of l) { body }] *)
Fixpoint for_of {A} (l : list A) (body : A -> M unit) : M unit :=
  match l with
  | [] => ret tt
  | x :: l' => body x ;; for_of l' body
  end.

Definition console_log (msg : string) : M unit :=
  fun w => (Ok tt,
            mkWorld (docs w) (outbox w) (console w ++ [Log msg]) (now w)
                    (timers w) (dbOps w) (mailOps w) (dbUp w) (mailUp w)).

Definition console_error (msg : string) (e : Err) : M unit :=
  fun w => (Ok tt,
            mkWorld (docs w) (outbox w) (console w ++ [LogError msg e]) (now w)
                    (timers w) (dbOps w) (mailOps w) (dbUp w) (mailUp w)).

(** [Date.now()] *)
Definition Date_now : M Z := fun w => (Ok (now w), w).

(** [setTimeout(() => sendLiveNotificationEmails(...a), delay)] *)
Definition setTimeout (a : list Js.Value) (delay : Z) : M unit :=
  fun w => (Ok tt, with_timers (timers w ++ [mkTimer (now w + delay) a]) w).

(** [await transporter.sendMail(m)] *)
Definition sendMail (m : Mail) : M unit :=
  fun w =>
    if mailUp w (mailOps w) then
      (Ok tt,
       mkWorld (docs w) (outbox w ++ [m]) (console w) (now w) (timers w)
               (dbOps w) (S (mailOps w)) (dbUp w) (mailUp w))
    else
      (Throw TransportError,
       mkWorld (docs w) (outbox w) (console w) (now w) (timers w)
               (dbOps w) (S (mailOps w)) (dbUp w) (mailUp w)).

(** ** The Mongoose model [Subscriber] *)

(** Every call of the model goes to the store first. *)
Definition db_call : M unit :=
  fun w =>
    let w' := mkWorld (docs w) (outbox w) (console w) (now w) (timers w)
                      (S (dbOps w)) (mailOps w) (dbUp w) (mailUp w) in
    if dbUp w (dbOps w) then (Ok tt, w') else (Throw MongoNetworkError, w').

Definition has_email (e : string) (s : Subscriber) : bool :=
  String.eqb (email s) e.

(** [new Subscriber({ email }).save()]: [isComingSoon] takes its default
    [true]; the unique index on [email] rejects a second document with the
    same address with error code 11000. *)
Definition Subscriber_save (e : string) : M unit :=
  db_call ;;
  fun w =>
    if existsb (has_email e) (docs w) then (Throw (MongoServerError 11000), w)
    else (Ok tt, with_docs (docs w ++ [mkSubscriber e true]) w).

(** [Subscriber.find({ isComingSoon: flag })] *)
Definition Subscriber_find (flag : bool) : M (list Subscriber) :=
  db_call ;;
  fun w => (Ok (filter (fun s => Bool.eqb (isComingSoon s) flag) (docs w)), w).

(** [Subscriber.find({ isComingSoon: flag }).countDocuments()] *)
Definition Subscriber_find_countDocuments (flag : bool) : M nat :=
  db_call ;;
  fun w =>
    (Ok (length (filter (fun s => Bool.eqb (isComingSoon s) flag) (docs w))), w).

(** [Subscriber.findOne({ email })] *)
Definition Subscriber_findOne (e : string) : M (option Subscriber) :=
  db_call ;;
  fun w => (Ok (find (has_email e) (docs w)), w).

(** An update document, as written in the source: path and new value. *)
Definition Update := list (string * Js.Value).

(** Mongoose casts an update against the schema before sending it; under
    the default [strict] option the paths the schema does not declare are
    removed from it. *)
Definition castUpdate (u : Update) : Update :=
  filter (fun kv => existsb (String.eqb (fst kv)) schema_paths) u.

Definition set_path (s : Subscriber) (kv : string * Js.Value) : Subscriber :=
  if String.eqb (fst kv) "isComingSoon" then
    mkSubscriber (email s) (Js.ToBoolean (snd kv))
  else if String.eqb (fst kv) "email" then
    match snd kv with
    | Js.Str e => mkSubscriber e (isComingSoon s)
    | _ => s
    end
  else s.

Definition apply_update (u : Update) (s : Subscriber) : Subscriber :=
  fold_left set_path (castUpdate u) s.

(** The first document with the given address is updated. *)
Fixpoint update_first (e : string) (u : Update) (l : list Subscriber)
  : list Subscriber :=
  match l with
  | [] => []
  | s :: l' =>
      if has_email e s then apply_update u s :: l'
      else s :: update_first e u l'
  end.

(** [Subscriber.findOneAndUpdate({ email }, u)] *)
Definition Subscriber_findOneAndUpdate (e : string) (u : Update) : M unit :=
  db_call ;;
  fun w => (Ok tt, with_docs (update_first e u (docs w)) w).

(** [subscriber.path] on a document read through the model: a path the
    schema does not declare is [undefined]. *)
Definition doc_get (s : Subscriber) (path : string) : Js.Value :=
  if String.eqb path "email" then Js.Str (email s)
  else if String.eqb path "isComingSoon" then Js.Boolean (isComingSoon s)
  else Js.Undefined.

(** ** HTTP responses *)

Inductive Json :=
| JError (error : string)
| JMessage (message : string)
| JSiteLive (siteLive : bool)
| JAccess (hasAccess siteLive : bool)
| JSuccess (success : bool).

Record Response := res {
  status : Z;
  json : Json
}.

(** A handler takes the [email] field of the JSON body of its request:
    [None] when the body has no such field, [Some e] for the string [e]. *)

(** ** Request bodies *)

(** The member [email] of a parsed body.  Besides the strings, the values
    that are falsy in JavaScript are told apart, since [!email] answers them
    as it answers a missing address.  A truthy value that is no string (a
    number other than 0, [true], an array, an object) goes on to the casts
    of Mongoose and to the address parser of the transport, which are not
    modelled. *)
Inductive Field :=
| Absent                    (* no member [email]: it reads as [undefined] *)
| JsonNull
| JsonFalse
| JsonZero                  (* the number 0 *)
| JsonString (s : string).

(** [req.body]: the object the JSON middleware parsed, or [undefined] when
    it parsed none and left [req.body] unset. *)
Inductive Body :=
| NoBody
| Parsed (email : Field).

(** The value [const { email } = req.body] binds. *)
Definition read (f : Field) : Js.Value :=
  match f with
  | Absent => Js.Undefined
  | JsonNull => Js.Null
  | JsonFalse => Js.Boolean false
  | JsonZero => Js.Num (Js.Finite 0)
  | JsonString s => Js.Str s
  end.

(** The same member as the handlers on [option string] take it. *)
Definition text (f : Field) : option string :=
  match f with
  | JsonString s => Some s
  | _ => None
  end.

(** What [const { email } = req.body] throws when [req.body] is
    [undefined]. *)
Definition destructure_undefined : Err :=
  TypeError "Cannot destructure property 'email' of 'req.body' as it is undefined.".

(** The world a computation leaves behind. *)
Definition exec {A} (c : M A) (w : World) : World := snd (c w).

Definition remove_nth {A} (i : nat) (l : list A) : list A :=
  firstn i l ++ skipn (S i) l.

Fixpoint set_nth {A} (j : nat) (x : A) (l : list A) : list A :=
  match l, j with
  | [], _ => []
  | _ :: l', O => x :: l'
  | y :: l', S j' => y :: set_nth j' x l'
  end.

(** A process that has just been started: nothing is scheduled, nothing was
    sent or printed yet.  The collection outlives the process. *)
Definition fresh_process (d : list Subscriber) (t : Z)
    (db mail : nat -> bool) : World :=
  mkWorld d [] [] t [] 0 0 db mail.

(** ** [src/server.js]: one broadcast, a fixed delay after the start *)

Module VariantA.

Definition DELAY_SECONDS : Z := 20 * 1000.

(** [app.post('/api/subscribe', ...)] *)
Definition subscribe (body : option string) : M Response :=
  match body with
  | None => ret (res 400 (JError "Email is required"))
  | Some email =>
      if negb (Js.ToBoolean (Js.Str email)) then
        ret (res 400 (JError "Email is required"))
      else
        try_catch
          (Subscriber_save email ;;
           sendMail (confirmation email) ;;
           console_log "Confirmation email sent:" ;;
           ret (res 200
                  (JMessage "Subscription successful, confirmation email sent.")))
          (fun error =>
             if is_duplicate_key error then
               ret (res 400 (JError "This email is already subscribed."))
             else
               console_error "Error during subscription:" error ;;
               ret (res 500 (JError "Server error")))
  end.

(** [sendLiveNotificationEmails]: one [try] around the whole loop. *)
Definition sendLiveNotificationEmails : M unit :=
  try_catch
    (subscribers <- Subscriber_find true ;;
     for_of subscribers (fun subscriber =>
       sendMail (liveNotification (email subscriber)) ;;
       console_log ("Follow-up email sent to: " ++ email subscriber) ;;
       Subscriber_findOneAndUpdate (email subscriber)
         [("isComingSoon", Js.Boolean false)]) ;;
     console_log "All follow-up emails sent.")
    (fun error => console_error "Error while sending follow-up emails:" error).

(** [startDelayedEmails] *)
Definition startDelayedEmails : M unit :=
  console_log "Waiting for 20 seconds before sending emails..." ;;
  setTimeout [] DELAY_SECONDS.

(** [app.get('/api/site-status', ...)] *)
Definition site_status : M Response :=
  try_catch
    (liveSubscribers <- Subscriber_find false ;;
     let siteLive := (0 <? length liveSubscribers)%nat in
     ret (res 200 (JSiteLive siteLive)))
    (fun error =>
       console_error "Error fetching site status:" error ;;
       ret (res 500 (JError "Server error"))).

(** What can happen to a running process.  A request is handled, and a
    broadcast runs, to its end before the next event. *)
Inductive Event :=
| Elapse (ms : N)                      (* time passes *)
| PostSubscribe (body : option string)
| GetSiteStatus
| TimerFires (i : nat)                 (* the i-th pending timer, once due *).

(** The callback of the only [setTimeout] of the file. *)
Definition fire (i : nat) (w : World) : World :=
  match nth_error (timers w) i with
  | Some t =>
      if due t <=? now w then
        exec sendLiveNotificationEmails
             (with_timers (remove_nth i (timers w)) w)
      else w
  | None => w
  end.

Definition step (ev : Event) (w : World) : World :=
  match ev with
  | Elapse ms => with_now (now w + Z.of_N ms) w
  | PostSubscribe body => exec (subscribe body) w
  | GetSiteStatus => exec site_status w
  | TimerFires i => fire i w
  end.

Definition run (evs : list Event) (w : World) : World :=
  fold_left (fun w ev => step ev w) evs w.

(** Loading the module calls [startDelayedEmails()] once (line 139). *)
Definition boot (d : list Subscriber) (t : Z) (db mail : nat -> bool) : World :=
  exec startDelayedEmails (fresh_process d t db mail).

(** The handler on the body of its request: line 42 reads [email] from
    [req.body] before the [try], line 44 tests [!email]. *)
Definition post_subscribe (body : Body) : M Response :=
  match body with
  | NoBody => throw destructure_undefined
  | Parsed f =>
      if negb (Js.ToBoolean (read f)) then
        ret (res 400 (JError "Email is required"))
      else subscribe (text f)
  end.

(** *** The broadcast, [await] by [await]

    [sendLiveNotificationEmails] gives way to the requests at each [await]:
    once it has issued the query of line 89, the mail of line 111 and the
    update of line 115.  A broadcast in progress is the operation it is
    waiting for and what remains of the answer to its query. *)
Inductive Task :=
| Started                                             (* [Subscriber.find] *)
| Sending (s : Subscriber) (rest : list Subscriber)   (* [sendMail] *)
| Updating (s : Subscriber) (rest : list Subscriber)  (* [findOneAndUpdate] *)
| Finished.

(** From the head of the loop to the next [await]. *)
Definition next (l : list Subscriber) : M Task :=
  match l with
  | [] => console_log "All follow-up emails sent." ;; ret Finished
  | s :: rest => ret (Sending s rest)
  end.

(** The awaited operation completes and the broadcast runs up to its next
    [await]. *)
Definition resume (t : Task) : M Task :=
  try_catch
    match t with
    | Started =>
        subscribers <- Subscriber_find true ;;
        next subscribers
    | Sending s rest =>
        sendMail (liveNotification (email s)) ;;
        console_log ("Follow-up email sent to: " ++ email s) ;;
        ret (Updating s rest)
    | Updating s rest =>
        Subscriber_findOneAndUpdate (email s)
          [("isComingSoon", Js.Boolean false)] ;;
        next rest
    | Finished => ret Finished
    end
    (fun error =>
       console_error "Error while sending follow-up emails:" error ;;
       ret Finished).

(** One broadcast resumed until it ends. *)
Fixpoint run_task (fuel : nat) (t : Task) (w : World) : World :=
  match fuel with
  | O => w
  | S fuel' =>
      match t with
      | Finished => w
      | _ =>
          match resume t w with
          | (Ok t', w') => run_task fuel' t' w'
          | (Throw _, w') => w'
          end
      end
  end.

(** The process with the broadcasts it has started. *)
Record Sys := mkSys {
  world : World;
  tasks : list Task
}.

Inductive SysEvent :=
| Atomic (ev : Event)       (* a request, or time passing *)
| Spawn (i : nat)           (* the i-th timer is due: its broadcast starts *)
| Resume (j : nat)          (* the j-th broadcast gets its answer *).

Definition sys_step (ev : SysEvent) (s : Sys) : Sys :=
  match ev with
  | Atomic (TimerFires _) => s
  | Atomic ev => mkSys (step ev (world s)) (tasks s)
  | Spawn i =>
      match nth_error (timers (world s)) i with
      | Some t =>
          if due t <=? now (world s) then
            mkSys (with_timers (remove_nth i (timers (world s))) (world s))
                  (tasks s ++ [Started])
          else s
      | None => s
      end
  | Resume j =>
      match nth_error (tasks s) j with
      | Some t =>
          match resume t (world s) with
          | (Ok t', w') => mkSys w' (set_nth j t' (tasks s))
          | (Throw _, w') => mkSys w' (set_nth j Finished (tasks s))
          end
      | None => s
      end
  end.

Definition sys_run (evs : list SysEvent) (s : Sys) : Sys :=
  fold_left (fun s ev => sys_step ev s) evs s.

End VariantA.

(** ** [src/unnamed/part_000]: one delayed broadcast per subscription *)

Module VariantB.

Definition FOLLOW_UP_TIME_LIMIT : Z := 5 * 1000.

(** The body of the loop of [sendLiveNotificationEmails]. *)
Definition notify (subscriber : Subscriber) : M unit :=
  if negb (Js.ToBoolean (doc_get subscriber "followUpEmailSent")) then
    sendMail (liveNotification (email subscriber)) ;;
    console_log ("Follow-up email sent to: " ++ email subscriber) ;;
    Subscriber_findOneAndUpdate (email subscriber)
      [("isComingSoon", Js.Boolean false);
       ("followUpEmailSent", Js.Boolean true)]
  else ret tt.

(** [sendLiveNotificationEmails(startTime)] *)
Definition sendLiveNotificationEmails (startTime : Js.Value) : M unit :=
  try_catch
    (subscribers <- Subscriber_find true ;;
     currentTime <- Date_now ;;
     let timeElapsed := Js.sub (Js.of_ms currentTime) (Js.ToNumber startTime) in
     if Js.gt timeElapsed (Js.of_ms FOLLOW_UP_TIME_LIMIT) then
       console_log "Time limit exceeded. Skipping follow-up emails."
     else
       for_of subscribers notify ;;
       console_log "All follow-up emails sent.")
    (fun error => console_error "Error while sending follow-up emails:" error).

(** [app.post('/api/subscribe', ...)]: the callback of the timer passes
    [newSubscriber.email] to [sendLiveNotificationEmails]. *)
Definition subscribe (body : option string) : M Response :=
  match body with
  | None => ret (res 400 (JError "Email is required"))
  | Some email =>
      if negb (Js.ToBoolean (Js.Str email)) then
        ret (res 400 (JError "Email is required"))
      else
        try_catch
          (Subscriber_save email ;;
           sendMail (confirmation email) ;;
           console_log ("Confirmation email sent: " ++ email) ;;
           setTimeout [Js.Str email] FOLLOW_UP_TIME_LIMIT ;;
           ret (res 200
                  (JMessage "Subscription successful, confirmation email sent.")))
          (fun error =>
             if is_duplicate_key error then
               ret (res 400 (JError "This email is already subscribed."))
             else
               console_error "Error during subscription:" error ;;
               ret (res 500 (JError "Server error")))
  end.

(** [app.get('/api/site-status', ...)] *)
Definition site_status : M Response :=
  try_catch
    (liveSubscribers <- Subscriber_find false ;;
     let siteLive := (0 <? length liveSubscribers)%nat in
     ret (res 200 (JSiteLive siteLive)))
    (fun error =>
       console_error "Error fetching site status:" error ;;
       ret (res 500 (JError "Server error"))).

(** The models bound at the top level of the file: line 26 binds
    [Subscriber]; no line binds [User]. *)
Inductive Model := SubscriberModel.

Definition module_scope (ident : string) : option Model :=
  if String.eqb ident "Subscriber" then Some SubscriberModel else None.

(** Evaluating an identifier. *)
Definition resolve (ident : string) : M Model :=
  match module_scope ident with
  | Some m => ret m
  | None => throw (ReferenceError ident)
  end.

Fixpoint delete_first (e : string) (l : list Subscriber)
  : nat * list Subscriber :=
  match l with
  | [] => (0%nat, [])
  | s :: l' =>
      if has_email e s then (1%nat, l')
      else let (n, r) := delete_first e l' in (n, s :: r)
  end.

(** [m.deleteOne({ email })], answering [deletedCount].  An absent [email]
    matches no document: every stored document has one. *)
Definition Model_deleteOne (m : Model) (e : option string) : M nat :=
  db_call ;;
  fun w =>
    match e with
    | Some a =>
        let (n, d) := delete_first a (docs w) in (Ok n, with_docs d w)
    | None => (Ok 0%nat, w)
    end.

(** [app.post('/api/unsubscribe', ...)] *)
Definition unsubscribe (body : option string) : M Response :=
  try_catch
    (User <- resolve "User" ;;
     deletedCount <- Model_deleteOne User body ;;
     if (0 <? deletedCount)%nat then ret (res 200 (JSuccess true))
     else ret (res 404 (JError "User not found.")))
    (fun error =>
       console_error "Error unsubscribing:" error ;;
       ret (res 500 (JError "An error occurred while unsubscribing."))).

(** [app.post('/api/check-access', ...)] *)
Definition check_access (body : option string) : M Response :=
  match body with
  | None => ret (res 400 (JError "Email is required"))
  | Some email =>
      if negb (Js.ToBoolean (Js.Str email)) then
        ret (res 400 (JError "Email is required"))
      else
        try_catch
          (subscriber <- Subscriber_findOne email ;;
           n <- Subscriber_find_countDocuments false ;;
           let siteLive := (0 <? n)%nat in
           match subscriber with
           | Some s =>
               let hasAccess := Bool.eqb (isComingSoon s) false in
               ret (res 200 (JAccess hasAccess siteLive))
           | None => ret (res 200 (JAccess false siteLive))
           end)
          (fun error =>
             console_error "Error checking access:" error ;;
             ret (res 500 (JError "Server error")))
  end.

(** The two handlers on the body of their request: lines 41 and 190 read
    [email] from [req.body] before the [try], lines 43 and 192 test
    [!email]. *)
Definition post_subscribe (body : Body) : M Response :=
  match body with
  | NoBody => throw destructure_undefined
  | Parsed f =>
      if negb (Js.ToBoolean (read f)) then
        ret (res 400 (JError "Email is required"))
      else subscribe (text f)
  end.

Definition post_check_access (body : Body) : M Response :=
  match body with
  | NoBody => throw destructure_undefined
  | Parsed f =>
      if negb (Js.ToBoolean (read f)) then
        ret (res 400 (JError "Email is required"))
      else check_access (text f)
  end.

(** Line 171 reads [email] the same way; the handler has no test on it. *)
Definition post_unsubscribe (body : Body) : M Response :=
  match body with
  | NoBody => throw destructure_undefined
  | Parsed f => unsubscribe (text f)
  end.

Inductive Event :=
| Elapse (ms : N)
| PostSubscribe (body : option string)
| PostUnsubscribe (body : option string)
| PostCheckAccess (body : option string)
| GetSiteStatus
| TimerFires (i : nat).

(** The first argument of a call, [undefined] when there is none. *)
Definition first_arg (a : list Js.Value) : Js.Value :=
  match a with
  | v :: _ => v
  | [] => Js.Undefined
  end.

(** A due timer runs its callback; here the broadcast runs to its end
    before anything else happens. *)
Definition fire (i : nat) (w : World) : World :=
  match nth_error (timers w) i with
  | Some t =>
      if due t <=? now w then
        exec (sendLiveNotificationEmails (first_arg (args t)))
             (with_timers (remove_nth i (timers w)) w)
      else w
  | None => w
  end.

Definition step (ev : Event) (w : World) : World :=
  match ev with
  | Elapse ms => with_now (now w + Z.of_N ms) w
  | PostSubscribe body => exec (subscribe body) w
  | PostUnsubscribe body => exec (unsubscribe body) w
  | PostCheckAccess body => exec (check_access body) w
  | GetSiteStatus => exec site_status w
  | TimerFires i => fire i w
  end.

Definition run (evs : list Event) (w : World) : World :=
  fold_left (fun w ev => step ev w) evs w.

(** *** Broadcasts that overlap

    Between two [await]s of a broadcast other tasks run.  A broadcast in
    progress is the operation it is waiting for and what remains of its
    snapshot of the pending subscribers. *)
Inductive Task :=
| Started (startTime : Js.Value)                 (* [Subscriber.find] *)
| Sending (s : Subscriber) (rest : list Subscriber)   (* [sendMail] *)
| Updating (s : Subscriber) (rest : list Subscriber)  (* [findOneAndUpdate] *)
| Finished.

(** From the head of the loop to the next [await]. *)
Fixpoint next (l : list Subscriber) : M Task :=
  match l with
  | [] => console_log "All follow-up emails sent." ;; ret Finished
  | s :: rest =>
      if negb (Js.ToBoolean (doc_get s "followUpEmailSent")) then
        ret (Sending s rest)
      else next rest
  end.

(** The awaited operation completes and the broadcast runs up to its next
    [await]. *)
Definition resume (t : Task) : M Task :=
  try_catch
    match t with
    | Started startTime =>
        subscribers <- Subscriber_find true ;;
        currentTime <- Date_now ;;
        let timeElapsed :=
          Js.sub (Js.of_ms currentTime) (Js.ToNumber startTime) in
        if Js.gt timeElapsed (Js.of_ms FOLLOW_UP_TIME_LIMIT) then
          console_log "Time limit exceeded. Skipping follow-up emails." ;;
          ret Finished
        else next subscribers
    | Sending s rest =>
        sendMail (liveNotification (email s)) ;;
        console_log ("Follow-up email sent to: " ++ email s) ;;
        ret (Updating s rest)
    | Updating s rest =>
        Subscriber_findOneAndUpdate (email s)
          [("isComingSoon", Js.Boolean false);
           ("followUpEmailSent", Js.Boolean true)] ;;
        next rest
    | Finished => ret Finished
    end
    (fun error =>
       console_error "Error while sending follow-up emails:" error ;;
       ret Finished).

(** One broadcast resumed until it ends. *)
Fixpoint run_task (fuel : nat) (t : Task) (w : World) : World :=
  match fuel with
  | O => w
  | S fuel' =>
      match t with
      | Finished => w
      | _ =>
          match resume t w with
          | (Ok t', w') => run_task fuel' t' w'
          | (Throw _, w') => w'
          end
      end
  end.

(** The process with its broadcasts in progress. *)
Record Sys := mkSys {
  world : World;
  tasks : list Task
}.

Inductive SysEvent :=
| Atomic (ev : Event)       (* a request, or time passing *)
| Spawn (i : nat)           (* the i-th timer is due: its broadcast starts *)
| Resume (j : nat)          (* the j-th broadcast gets its answer *).

Definition sys_step (ev : SysEvent) (s : Sys) : Sys :=
  match ev with
  | Atomic (TimerFires _) => s
  | Atomic ev => mkSys (step ev (world s)) (tasks s)
  | Spawn i =>
      match nth_error (timers (world s)) i with
      | Some t =>
          if due t <=? now (world s) then
            mkSys (with_timers (remove_nth i (timers (world s))) (world s))
                  (tasks s ++ [Started (first_arg (args t))])
          else s
      | None => s
      end
  | Resume j =>
      match nth_error (tasks s) j with
      | Some t =>
          match resume t (world s) with
          | (Ok t', w') => mkSys w' (set_nth j t' (tasks s))
          | (Throw _, w') => mkSys w' (set_nth j Finished (tasks s))
          end
      | None => s
      end
  end.

Definition sys_run (evs : list SysEvent) (s : Sys) : Sys :=
  fold_left (fun s ev => sys_step ev s) evs s.

End VariantB.

(** ** Observations *)

(** The flag of the subscriber with address [e], if there is one. *)
Definition flag (w : World) (e : string) : option bool :=
  option_map isComingSoon (find (has_email e) (docs w)).

(** [countActive()] of the specification. *)
Definition countActive (w : World) : nat :=
  length (filter (fun s => Bool.eqb (isComingSoon s) false) (docs w)).

(** Stored records with address [e]. *)
Definition records (e : string) (w : World) : nat :=
  length (filter (has_email e) (docs w)).

(** Live-notifications the transport accepted for [e]. *)
Definition live_count (e : string) (l : list Mail) : nat :=
  length (filter (fun m => String.eqb (to m) e &&
                           String.eqb (subject m) (subject (liveNotification e)))
                 l).

Definition emails (w : World) : list string := map email (docs w).

(** ** Vocabulary of the statements *)

(** *** The loop of a broadcast *)

Definition awaiting (s : Subscriber) : bool := Bool.eqb (isComingSoon s) true.

(** The world once the store has answered a query. *)
Definition answered (w : World) : World :=
  mkWorld (docs w) (outbox w) (console w) (now w) (timers w)
          (S (dbOps w)) (mailOps w) (dbUp w) (mailUp w).

Definition update_A : Update := [("isComingSoon", Js.Boolean false)].

Definition update_B : Update :=
  [("isComingSoon", Js.Boolean false); ("followUpEmailSent", Js.Boolean true)].

(** The body of the loop, for the update document of either server. *)
Definition send_and_mark (u : Update) (s : Subscriber) : M unit :=
  sendMail (liveNotification (email s)) ;;
  console_log ("Follow-up email sent to: " ++ email s) ;;
  Subscriber_findOneAndUpdate (email s) u.

(** The world after the transport took the mail for [s]. *)
Definition mailed (s : Subscriber) (w : World) : World :=
  mkWorld (docs w) (outbox w ++ [liveNotification (email s)])
          (console w ++ [Log ("Follow-up email sent to: " ++ email s)])
          (now w) (timers w) (dbOps w) (S (mailOps w)) (dbUp w) (mailUp w).

(** The records after the subscribers of [l] were marked, in order. *)
Definition mark_all (u : Update) (l : list Subscriber) (d : list Subscriber)
  : list Subscriber :=
  fold_left (fun d x => update_first (email x) u d) l d.

(** The flag of address [e] in a list of records. *)
Definition flag_in (d : list Subscriber) (e : string) : option bool :=
  option_map isComingSoon (find (has_email e) d).

(** An update that, once cast, sets [isComingSoon] to [false] and nothing
    else. *)
Definition deactivating (u : Update) : Prop :=
  forall s, apply_update u s = mkSubscriber (email s) false.

Definition on_error (error : Err) : M unit :=
  console_error "Error while sending follow-up emails:" error.

(** The loop of the second server from some point on, inside its [try]. *)
Definition rest_of_pass (l : list Subscriber) : M unit :=
  try_catch
    (for_of l VariantB.notify ;; console_log "All follow-up emails sent.")
    on_error.

(** What a pass leaves behind when it is stopped by the transport. *)
Definition stopped_at (w w' : World) (pre : list Subscriber) (s : Subscriber)
    (post : list Subscriber) : Prop :=
  outbox w' = (outbox w ++ map (fun x => liveNotification (email x)) pre)%list /\
  (forall x, In x pre -> flag w' (email x) = Some false) /\
  (forall x, In x (s :: post) -> flag w' (email x) = Some true) /\
  mailOps w' = S (mailOps w + length pre) /\
  (exists c, console w' =
     (c ++ [LogError "Error while sending follow-up emails:" TransportError])%list).

(** *** Relations between the world before and the world after *)

(** [keeps R c]: the world after [c] is related by [R] to the world before.
    When [R] is reflexive and transitive, a handler keeps it as soon as the
    primitives it calls do. *)
Definition keeps (R : World -> World -> Prop) {A} (c : M A) : Prop :=
  forall w, R w (snd (c w)).

(** [Evolves w w']: the stored addresses of [w] are still there, in the same
    order, with new ones only appended; addresses stay unique; a subscriber
    that is active stays active; mails are only added to the outbox; the
    environment is the same. *)
Definition Evolves (w w' : World) : Prop :=
  (exists l, emails w' = emails w ++ l)%list /\
  (NoDup (emails w) -> NoDup (emails w')) /\
  (forall e, flag w e = Some false -> flag w' e = Some false) /\
  (exists m, outbox w' = outbox w ++ m)%list /\
  dbUp w' = dbUp w /\ mailUp w' = mailUp w.

Definition preserves {A} (c : M A) : Prop := keeps Evolves c.

(** No timer is added or removed. *)
Definition SameTimers (w w' : World) : Prop := timers w' = timers w.

(** Records are only added, awaiting launch, and the only mails sent are
    confirmations. *)
Definition Quiet (w w' : World) : Prop :=
  (exists l, docs w' = docs w ++ l /\
             Forall (fun s => isComingSoon s = true) l)%list /\
  (exists m, outbox w' = outbox w ++ m /\
             Forall (fun x => subject x = "Subscription Confirmation") m)%list.

(** Every live-notification in the outbox went to a stored address. *)
Definition OnlyStored (w : World) : Prop :=
  forall m, In m (outbox w) ->
            subject m = "Important Update: Website is Now Live!" ->
            In (to m) (emails w).

Definition KeepsOnlyStored (w w' : World) : Prop := OnlyStored w -> OnlyStored w'.

(** *** Sample stores, environments and runs *)

Definition always (b : bool) : nat -> bool := fun _ => b.

(** The transport refuses the second mail it is given and no other. *)
Definition refuse_second (n : nat) : bool := negb (Nat.eqb n 1).

Definition store_ab : list Subscriber :=
  [mkSubscriber "a@b.com" true; mkSubscriber "c@d.org" false].

Definition store_abc : list Subscriber :=
  [mkSubscriber "a@b.com" true; mkSubscriber "c@d.org" true;
   mkSubscriber "e@f.net" true].

Definition late_trace : list VariantB.Event :=
  [VariantB.PostSubscribe (Some "a@b.com"); VariantB.Elapse 6000].

Definition subscribe_then_broadcast : list VariantB.Event :=
  [VariantB.PostSubscribe (Some "a@b.com"); VariantB.Elapse 5000;
   VariantB.TimerFires 0].

(** Two subscriptions 10 ms apart; the broadcast of the second one reads
    the pending subscribers while the first one is waiting for the
    transport. *)
Definition overlapping : list VariantB.SysEvent :=
  [VariantB.Atomic (VariantB.PostSubscribe (Some "a@b.com"));
   VariantB.Atomic (VariantB.Elapse 10);
   VariantB.Atomic (VariantB.PostSubscribe (Some "c@d.org"));
   VariantB.Atomic (VariantB.Elapse 4990);
   VariantB.Spawn 0;      (* the timer of a@b.com is due *)
   VariantB.Resume 0;     (* its broadcast reads the pending subscribers *)
   VariantB.Atomic (VariantB.Elapse 10);
   VariantB.Spawn 0;      (* the timer of c@d.org is due *)
   VariantB.Resume 1;     (* its broadcast reads the same subscribers *)
   VariantB.Resume 0;     (* first broadcast: mail to a@b.com accepted *)
   VariantB.Resume 0;     (* first broadcast: a@b.com marked active *)
   VariantB.Resume 1].    (* second broadcast: mail to a@b.com accepted *)

(** *** Further vocabulary *)

(** The number of active subscribers does not go down. *)
Definition ActiveGrows (w w' : World) : Prop :=
  (countActive w <= countActive w')%nat.

(** The character that every usual e-mail address holds. *)
Definition at_sign : ascii := "@"%char.


(** Every pending timer carries, as the argument of its callback, the
    address of a stored subscriber, and that address is not empty. *)
Definition TimersCarryStored (w : World) : Prop :=
  forall t, In t (timers w) ->
    exists e, args t = [Js.Str e] /\ e <> "" /\ In e (emails w).

(** *** Requests between the awaits of a broadcast *)

(** The subscribers a broadcast of the first server still holds from the
    answer to its query. *)
Definition remaining (t : VariantA.Task) : list Subscriber :=
  match t with
  | VariantA.Sending x rest | VariantA.Updating x rest => x :: rest
  | _ => []
  end.




(** Every live-notification went to a stored address, and a broadcast
    holds stored subscribers only. *)
Definition HoldsStored (s : VariantA.Sys) : Prop :=
  OnlyStored (VariantA.world s) /\
  forall t, In t (VariantA.tasks s) ->
    incl (map email (remaining t)) (emails (VariantA.world s)).


(** Is this broadcast of the second server over? *)
Definition is_finished (t : VariantB.Task) : bool :=
  match t with
  | VariantB.Finished => true
  | _ => false
  end.

(** No broadcast is in progress. *)
Definition idle (s : VariantB.Sys) : bool :=
  forallb is_finished (VariantB.tasks s).

(** Does this event start a broadcast? *)
Definition starts (ev : VariantB.SysEvent) (s : VariantB.Sys) : bool :=
  match ev with
  | VariantB.Spawn i =>
      match nth_error (timers (VariantB.world s)) i with
      | Some t => due t <=? now (VariantB.world s)
      | None => false
      end
  | _ => false
  end.

(** Along the run a broadcast starts only when none is in progress;
    requests come at any time, also between the awaits of a broadcast. *)
Fixpoint one_at_a_time (evs : list VariantB.SysEvent) (s : VariantB.Sys) : bool :=
  match evs with
  | [] => true
  | ev :: evs' =>
      (negb (starts ev s) || idle s)
      && one_at_a_time evs' (VariantB.sys_step ev s)
  end.

(** The subscribers a broadcast of the second server holds, and those it
    has not mailed yet. *)
Definition held (t : VariantB.Task) : list Subscriber :=
  match t with
  | VariantB.Sending x rest | VariantB.Updating x rest => x :: rest
  | _ => []
  end.

Definition todo (t : VariantB.Task) : list Subscriber :=
  match t with
  | VariantB.Sending x rest => x :: rest
  | VariantB.Updating _ rest => rest
  | _ => []
  end.

(** The broadcast has mailed [e] and waits for the update of its record. *)
Definition pending (t : VariantB.Task) (e : string) : Prop :=
  match t with
  | VariantB.Updating x _ => email x = e
  | _ => False
  end.

(** Does the store apply the status update this event completes, if it
    completes one? *)
Definition update_applied (ev : VariantB.SysEvent) (s : VariantB.Sys) : bool :=
  match ev with
  | VariantB.Resume j =>
      match nth_error (VariantB.tasks s) j with
      | Some (VariantB.Updating _ _) =>
          dbUp (VariantB.world s) (dbOps (VariantB.world s))
      | _ => true
      end
  | _ => true
  end.

(** Along the run the store applies every status update of a broadcast;
    it may refuse any other call. *)
Fixpoint updates_applied (evs : list VariantB.SysEvent) (s : VariantB.Sys)
  : bool :=
  match evs with
  | [] => true
  | ev :: evs' =>
      update_applied ev s && updates_applied evs' (VariantB.sys_step ev s)
  end.

(** What holds of the world and of the one broadcast that may be in
    progress when the store applies every status update: an address has no
    live-notification, or one and a record that is active or about to be
    marked; the broadcast holds distinct stored subscribers and has mailed
    none of those it still has to go through. *)
Definition InProgress (w : World) (t : VariantB.Task) : Prop :=
  NoDup (emails w) /\
  (forall e, live_count e (outbox w) = 0%nat \/
             (live_count e (outbox w) = 1%nat /\
              (flag w e = Some false \/ pending t e))) /\
  NoDup (map email (held t)) /\
  (forall y, In y (held t) -> flag w (email y) <> None) /\
  (forall y, In y (todo t) -> live_count (email y) (outbox w) = 0%nat).

(** At most one broadcast is not finished, and it is as above. *)
Definition OneBusy (s : VariantB.Sys) : Prop :=
  exists j,
    (forall k t, nth_error (VariantB.tasks s) k = Some t -> k <> j ->
                 t = VariantB.Finished) /\
    InProgress (VariantB.world s) (nth j (VariantB.tasks s) VariantB.Finished).

(** Two subscriptions; the timer of the first one fires, and while its
    broadcast runs the second subscription and a status request are
    handled; the timer of the second one fires after the first broadcast
    has ended. *)
Definition requests_between_awaits : list VariantB.SysEvent :=
  [VariantB.Atomic (VariantB.PostSubscribe (Some "a@b.com"));
   VariantB.Atomic (VariantB.Elapse 5000);
   VariantB.Spawn 0;      (* the timer of a@b.com is due *)
   VariantB.Resume 0;     (* the query is answered: a@b.com *)
   VariantB.Atomic (VariantB.PostSubscribe (Some "c@d.org"));
   VariantB.Resume 0;     (* mail to a@b.com accepted *)
   VariantB.Atomic VariantB.GetSiteStatus;
   VariantB.Resume 0;     (* a@b.com marked active; the broadcast ends *)
   VariantB.Atomic (VariantB.Elapse 5000);
   VariantB.Spawn 0;      (* the timer of c@d.org is due *)
   VariantB.Resume 1;     (* the query is answered: c@d.org *)
   VariantB.Resume 1;     (* mail to c@d.org accepted *)
   VariantB.Resume 1].    (* c@d.org marked active *)

(** The store refuses its third call and no other. *)
Definition refuse_third (n : nat) : bool := negb (Nat.eqb n 2).

(** One broadcast at a time, where the store refuses the update of
    a@b.com: the broadcast of the next subscription finds a@b.com still
    awaiting launch. *)
Definition update_refused : list VariantB.SysEvent :=
  [VariantB.Atomic (VariantB.PostSubscribe (Some "a@b.com"));
   VariantB.Atomic (VariantB.Elapse 5000);
   VariantB.Spawn 0;      (* the timer of a@b.com is due *)
   VariantB.Resume 0;     (* the query is answered: a@b.com *)
   VariantB.Resume 0;     (* mail to a@b.com accepted *)
   VariantB.Resume 0;     (* the update is refused; the broadcast ends *)
   VariantB.Atomic (VariantB.PostSubscribe (Some "c@d.org"));
   VariantB.Atomic (VariantB.Elapse 5000);
   VariantB.Spawn 0;      (* the timer of c@d.org is due *)
   VariantB.Resume 1;     (* the query is answered: a@b.com, c@d.org *)
   VariantB.Resume 1].    (* mail to a@b.com accepted again *)

(** * Properties *)

Example StringToNumber_samples :
  Js.StringToNumber "a@b.com" = Js.NaN /\
  Js.StringToNumber "1e" = Js.NaN /\
  Js.StringToNumber "+0x10" = Js.NaN /\
  Js.StringToNumber "-Infinity" = Js.Infinity true /\
  Js.gt (Js.StringToNumber " 42 ") (Js.of_ms 41) = true /\
  Js.gt (Js.StringToNumber "0x1f") (Js.of_ms 31) = false /\
  Js.gt (Js.StringToNumber "1.5e2") (Js.StringToNumber "149.9") = true /\
  Js.gt (Js.StringToNumber "") (Js.of_ms 0) = false.
Proof. vm_compute. repeat split. Qed.

(** ** Running the primitives *)

Lemma active_filter_nonempty (d : list Subscriber) :
  (0 <? length (filter (fun s => Bool.eqb (isComingSoon s) false) d))%nat = true
  <-> exists s, In s d /\ isComingSoon s = false.
Proof.
  induction d as [|x d IH]; simpl.
  - split; [discriminate | intros [s [[] _]]].
  - destruct (isComingSoon x) eqn:E; simpl.
    + rewrite IH. split.
      * intros [s [Hs Hf]]. exists s. auto.
      * intros [s [[->|Hs] Hf]]; [congruence | exists s; auto].
    + split; [intros _; exists x; auto | reflexivity].
Qed.

Lemma find_flag_in w e b :
  flag w e = Some b -> exists s, In s (docs w) /\ isComingSoon s = b.
Proof.
  unfold flag. destruct (find (has_email e) (docs w)) as [s|] eqn:F; simpl.
  - intros [= <-]. exists s. split; [|reflexivity].
    now apply find_some in F.
  - discriminate.
Qed.

(** ** The site-status endpoint *)

(** C2. The site-status endpoint of both servers answers 200 with
    [siteLive] equal to [countActive() > 0] whenever the store answers the
    query (500 otherwise): [siteLive] is true if and only if some stored
    subscriber, whichever it is, has [isComingSoon = false]; the store is
    left as it was. *)
Theorem site_status_live_iff_some_active (w : World) :
  let answer :=
    if dbUp w (dbOps w)
    then Ok (res 200 (JSiteLive (0 <? countActive w)%nat))
    else Ok (res 500 (JError "Server error")) in
  fst (VariantA.site_status w) = answer /\
  fst (VariantB.site_status w) = answer /\
  docs (exec VariantA.site_status w) = docs w /\
  docs (exec VariantB.site_status w) = docs w /\
  ((0 <? countActive w)%nat = true <->
     exists s, In s (docs w) /\ isComingSoon s = false) /\
  (forall e, flag w e = Some false -> (0 <? countActive w)%nat = true).
Proof.
  cbv zeta.
  assert (HA : forall w0, VariantA.site_status w0 = VariantB.site_status w0)
    by reflexivity.
  unfold exec. rewrite HA.
  assert (Hiff := active_filter_nonempty (docs w)).
  cbv [VariantB.site_status try_catch bind Subscriber_find db_call
       countActive console_error ret].
  assert (Hfl : forall e, flag w e = Some false ->
            (0 <? length (filter (fun s => Bool.eqb (isComingSoon s) false)
                                 (docs w)))%nat = true).
  { intros e He. apply Hiff. now apply find_flag_in in He. }
  destruct (dbUp w (dbOps w)); simpl; tauto.
Qed.

Lemma nonempty_truthy (e : string) :
  e <> "" -> negb (Js.ToBoolean (Js.Str e)) = false.
Proof.
  intros H. simpl. apply String.eqb_neq in H. now rewrite H.
Qed.

Lemma existsb_has_email (e : string) (d : list Subscriber) :
  existsb (has_email e) d = true <-> In e (map email d).
Proof.
  rewrite existsb_exists. split.
  - intros [s [Hs He]]. apply String.eqb_eq in He. subst e. now apply in_map.
  - intros H. apply in_map_iff in H. destruct H as [s [He Hs]].
    exists s. split; [assumption|]. unfold has_email. now apply String.eqb_eq.
Qed.

Lemma not_stored (e : string) (d : list Subscriber) :
  ~ In e (map email d) -> existsb (has_email e) d = false.
Proof.
  intros H. destruct (existsb (has_email e) d) eqn:E; [|reflexivity].
  now apply existsb_has_email in E.
Qed.

(** ** The unsubscribe endpoint *)

(** [Subscriber] is bound, [User] is not. *)
Lemma resolve_User (w : World) :
  VariantB.resolve "User" w = (Throw (ReferenceError "User"), w) /\
  VariantB.resolve "Subscriber" w = (Ok VariantB.SubscriberModel, w).
Proof. split; reflexivity. Qed.

(** Whatever the body and the store, the handler ends in its [catch]. *)
Lemma unsubscribe_throws (body : option string) (w : World) :
  VariantB.unsubscribe body w =
    (Ok (res 500 (JError "An error occurred while unsubscribing.")),
     mkWorld (docs w) (outbox w)
             (console w ++ [LogError "Error unsubscribing:" (ReferenceError "User")])
             (now w) (timers w) (dbOps w) (mailOps w) (dbUp w) (mailUp w)).
Proof. reflexivity. Qed.

(** With the model the file does bind, [deleteOne] removes the record and
    counts it: the rest of the handler does what the endpoint is for. *)
Lemma deleteOne_Subscriber (e : string) (w : World) :
  dbUp w (dbOps w) = true ->
  fst (VariantB.Model_deleteOne VariantB.SubscriberModel (Some e) w)
    = Ok (fst (VariantB.delete_first e (docs w))) /\
  docs (exec (VariantB.Model_deleteOne VariantB.SubscriberModel (Some e)) w)
    = snd (VariantB.delete_first e (docs w)).
Proof.
  intros H. unfold exec.
  cbv [VariantB.Model_deleteOne bind db_call]. rewrite H.
  cbv [docs with_docs].
  destruct w as [d o c t tm n m db ml].
  destruct (VariantB.delete_first e d); auto.
Qed.

(** C6. Unsubscribing a stored address answers 500 and removes nothing, and
    unsubscribing an unknown address answers 500 instead of 404: the handler
    names the model [User], which the file never binds, so the store is not
    even called. *)
Theorem unsubscribe_stored_email_answers_500 :
  let w := fresh_process store_ab 0 (always true) (always true) in
  fst (VariantB.unsubscribe (Some "a@b.com") w)
    = Ok (res 500 (JError "An error occurred while unsubscribing.")) /\
  docs (exec (VariantB.unsubscribe (Some "a@b.com")) w) = store_ab /\
  dbOps (exec (VariantB.unsubscribe (Some "a@b.com")) w) = 0%nat /\
  fst (VariantB.unsubscribe (Some "nobody@b.com") w)
    = Ok (res 500 (JError "An error occurred while unsubscribing.")).
Proof.
  cbv zeta. unfold exec. rewrite !unsubscribe_throws. repeat split.
Qed.

(** ** The check-access endpoint *)

(** C7. For a non-empty email, when the store answers the two queries,
    check-access answers 200 with [hasAccess] the negation of the flag of
    the stored subscriber with that email, [hasAccess = false] when there is
    none, and with [siteLive = (countActive() > 0)] in both cases. *)
Theorem check_access_known_and_unknown (w : World) (e : string) :
  e <> "" ->
  dbUp w (dbOps w) = true ->
  dbUp w (S (dbOps w)) = true ->
  fst (VariantB.check_access (Some e) w) =
    Ok (res 200 (JAccess match flag w e with
                         | Some awaiting => negb awaiting
                         | None => false
                         end
                         (0 <? countActive w)%nat)) /\
  docs (exec (VariantB.check_access (Some e)) w) = docs w.
Proof.
  intros He H0 H1. unfold exec, VariantB.check_access.
  rewrite (nonempty_truthy e He).
  cbv [try_catch bind Subscriber_findOne Subscriber_find_countDocuments
       db_call ret countActive flag dbOps dbUp docs].
  destruct w as [d o c t tm n m db ml]. simpl in *.
  rewrite H0, H1.
  destruct (find (has_email e) d) as [s|]; simpl; [|auto].
  destruct (isComingSoon s); auto.
Qed.

Lemma check_access_witness :
  fst (VariantB.check_access (Some "c@d.org")
         (fresh_process store_ab 0 (always true) (always true)))
    = Ok (res 200 (JAccess true true)).
Proof.
  apply (check_access_known_and_unknown
           (fresh_process store_ab 0 (always true) (always true)) "c@d.org");
    [discriminate | reflexivity | reflexivity].
Defined.

(** ** Subscribing *)

(** C10. When the insert succeeds and the confirmation mail is refused,
    both servers answer 500 and keep the new record, with
    [isComingSoon = true]; the second server schedules no broadcast. *)
Theorem subscribe_mail_failure_keeps_record (w : World) (e : string) :
  e <> "" ->
  ~ In e (emails w) ->
  dbUp w (dbOps w) = true ->
  mailUp w (mailOps w) = false ->
  (fst (VariantA.subscribe (Some e) w) = Ok (res 500 (JError "Server error")) /\
   docs (exec (VariantA.subscribe (Some e)) w)
     = (docs w ++ [mkSubscriber e true])%list) /\
  (fst (VariantB.subscribe (Some e) w) = Ok (res 500 (JError "Server error")) /\
   docs (exec (VariantB.subscribe (Some e)) w)
     = (docs w ++ [mkSubscriber e true])%list /\
   timers (exec (VariantB.subscribe (Some e)) w) = timers w).
Proof.
  intros He Hnew Hdb Hmail. apply not_stored in Hnew.
  unfold exec, VariantA.subscribe, VariantB.subscribe.
  rewrite (nonempty_truthy e He).
  cbv [try_catch bind Subscriber_save sendMail db_call ret with_docs
       console_log console_error setTimeout
       dbOps dbUp docs mailOps mailUp outbox console now timers].
  destruct w as [d o c t tm n m db ml]. simpl in *.
  rewrite Hdb, Hnew, Hmail. simpl. auto.
Qed.

Lemma subscribe_mail_failure_witness :
  docs (exec (VariantA.subscribe (Some "new@b.com"))
          (fresh_process store_ab 0 (always true) (always false)))
    = (store_ab ++ [mkSubscriber "new@b.com" true])%list.
Proof.
  apply (subscribe_mail_failure_keeps_record
           (fresh_process store_ab 0 (always true) (always false)) "new@b.com");
    [discriminate | | reflexivity | reflexivity].
  simpl. intros [H|[H|[]]]; discriminate.
Defined.

(** ** What no operation undoes *)

Lemma Evolves_refl w : Evolves w w.
Proof.
  repeat split; auto; exists []; now rewrite app_nil_r.
Qed.

Lemma Evolves_trans w1 w2 w3 : Evolves w1 w2 -> Evolves w2 w3 -> Evolves w1 w3.
Proof.
  intros (E1 & N1 & F1 & O1 & D1 & M1) (E2 & N2 & F2 & O2 & D2 & M2).
  repeat split; auto; try congruence.
  - destruct E1 as [l1 E1], E2 as [l2 E2]. exists (l1 ++ l2)%list.
    now rewrite E2, E1, app_assoc.
  - destruct O1 as [l1 O1], O2 as [l2 O2]. exists (l1 ++ l2)%list.
    now rewrite O2, O1, app_assoc.
Qed.

(** A change that leaves the collection alone and only adds mails. *)
Lemma Evolves_same_docs w w' :
  docs w' = docs w ->
  (exists m, outbox w' = outbox w ++ m)%list ->
  dbUp w' = dbUp w -> mailUp w' = mailUp w ->
  Evolves w w'.
Proof.
  intros Hd Ho Hdb Hm. unfold Evolves, emails, flag. rewrite Hd.
  repeat split; auto. exists []. now rewrite app_nil_r.
Qed.

(** *** Relations every step of a handler respects *)

Section Frame.

Context (R : World -> World -> Prop) {R_pre : PreOrder R}.

Lemma keeps_ret {A} (a : A) : keeps R (ret a).
Proof. intros w. simpl. reflexivity. Qed.

Lemma keeps_throw {A} (e : Err) : keeps R (@throw A e).
Proof. intros w. simpl. reflexivity. Qed.

Lemma keeps_pure {A} (f : World -> A) : keeps R (fun w => (Ok (f w), w)).
Proof. intros w. simpl. reflexivity. Qed.

Lemma keeps_bind {A B} (c : M A) (k : A -> M B) :
  keeps R c -> (forall a, keeps R (k a)) -> keeps R (bind c k).
Proof.
  intros Hc Hk w. unfold bind. specialize (Hc w).
  destruct (c w) as [[a|e] w']; simpl in *; [|assumption].
  transitivity w'; [assumption | apply Hk].
Qed.

Lemma keeps_try_catch {A} (c : M A) (h : Err -> M A) :
  keeps R c -> (forall e, keeps R (h e)) -> keeps R (try_catch c h).
Proof.
  intros Hc Hh w. unfold try_catch. specialize (Hc w).
  destruct (c w) as [[a|e] w']; simpl in *; [assumption|].
  transitivity w'; [assumption | apply Hh].
Qed.

Lemma keeps_for_of {A} (l : list A) (body : A -> M unit) :
  (forall x, keeps R (body x)) -> keeps R (for_of l body).
Proof.
  intros Hb. induction l as [|x l IH]; simpl.
  - apply keeps_ret.
  - apply keeps_bind; auto.
Qed.

Lemma keeps_run {E} (step : E -> World -> World) (evs : list E) :
  (forall ev w, R w (step ev w)) ->
  forall w, R w (fold_left (fun w ev => step ev w) evs w).
Proof.
  intros Hs. induction evs as [|ev evs IH]; intros w; simpl.
  - reflexivity.
  - transitivity (step ev w); [apply Hs | apply IH].
Qed.

End Frame.

#[local] Instance Evolves_PreOrder : PreOrder Evolves.
Proof.
  split; [exact Evolves_refl | exact Evolves_trans].
Qed.

Lemma preserves_ret {A} (a : A) : preserves (ret a).
Proof. apply keeps_ret; exact _. Qed.

Lemma preserves_throw {A} (e : Err) : preserves (@throw A e).
Proof. apply keeps_throw; exact _. Qed.

Lemma preserves_bind {A B} (c : M A) (k : A -> M B) :
  preserves c -> (forall a, preserves (k a)) -> preserves (bind c k).
Proof. apply keeps_bind; exact _. Qed.

Lemma preserves_try_catch {A} (c : M A) (h : Err -> M A) :
  preserves c -> (forall e, preserves (h e)) -> preserves (try_catch c h).
Proof. apply keeps_try_catch; exact _. Qed.

Lemma preserves_for_of {A} (l : list A) (body : A -> M unit) :
  (forall x, preserves (body x)) -> preserves (for_of l body).
Proof. apply keeps_for_of; exact _. Qed.

Ltac same_docs :=
  intros w; apply Evolves_same_docs; simpl; auto;
  try (exists []; now rewrite app_nil_r).

Lemma preserves_console_log msg : preserves (console_log msg).
Proof. same_docs. Qed.

Lemma preserves_console_error msg e : preserves (console_error msg e).
Proof. same_docs. Qed.

Lemma preserves_Date_now : preserves Date_now.
Proof. same_docs. Qed.

Lemma preserves_setTimeout a delay : preserves (setTimeout a delay).
Proof. same_docs. Qed.

Lemma preserves_db_call : preserves db_call.
Proof.
  intros w. unfold db_call. destruct (dbUp w (dbOps w)); revert w; same_docs.
Qed.

Lemma preserves_sendMail m : preserves (sendMail m).
Proof.
  intros w. unfold sendMail.
  destruct (mailUp w (mailOps w)); apply Evolves_same_docs; simpl; auto.
  - now exists [m].
  - exists []. now rewrite app_nil_r.
Qed.

Lemma preserves_pure {A} (f : World -> A) : preserves (fun w => (Ok (f w), w)).
Proof. intros w. apply Evolves_refl. Qed.

Lemma preserves_Subscriber_find b : preserves (Subscriber_find b).
Proof.
  apply preserves_bind; [apply preserves_db_call | intros _].
  apply (preserves_pure
           (fun w => filter (fun s => Bool.eqb (isComingSoon s) b) (docs w))).
Qed.

Lemma preserves_Subscriber_find_countDocuments b :
  preserves (Subscriber_find_countDocuments b).
Proof.
  apply preserves_bind; [apply preserves_db_call | intros _].
  apply (preserves_pure
           (fun w => length (filter (fun s => Bool.eqb (isComingSoon s) b)
                                    (docs w)))).
Qed.

Lemma preserves_Subscriber_findOne e : preserves (Subscriber_findOne e).
Proof.
  apply preserves_bind; [apply preserves_db_call | intros _].
  apply (preserves_pure (fun w => find (has_email e) (docs w))).
Qed.

Lemma find_app_some {A} (f : A -> bool) (l l' : list A) (x : A) :
  find f l = Some x -> find f (l ++ l') = Some x.
Proof.
  induction l as [|y l IH]; simpl; [discriminate|].
  destruct (f y); auto.
Qed.

Lemma preserves_Subscriber_save e : preserves (Subscriber_save e).
Proof.
  apply preserves_bind; [apply preserves_db_call | intros _].
  intros w. simpl. destruct (existsb (has_email e) (docs w)) eqn:E; simpl.
  - apply Evolves_refl.
  - unfold Evolves, emails, flag. simpl. rewrite map_app. simpl.
    repeat split; auto.
    + now exists [e].
    + intros Hnd.
      assert (Hn : ~ In e (map email (docs w))).
      { intros Hin. apply existsb_has_email in Hin. congruence. }
      assert (HA := Add_app e (map email (docs w)) []).
      rewrite app_nil_r in HA. apply (NoDup_Add HA). split; assumption.
    + intros e0.
      destruct (find (has_email e0) (docs w)) as [s|] eqn:F; simpl;
        [|discriminate].
      intros H. now rewrite (find_app_some _ _ _ _ F).
    + exists []. now rewrite app_nil_r.
Qed.

Lemma deactivating_A : deactivating [("isComingSoon", Js.Boolean false)].
Proof. intros s. reflexivity. Qed.

Lemma deactivating_B :
  deactivating [("isComingSoon", Js.Boolean false);
                ("followUpEmailSent", Js.Boolean true)].
Proof. intros s. reflexivity. Qed.

Lemma map_email_update_first e u d :
  deactivating u -> map email (update_first e u d) = map email d.
Proof.
  intros Hu. induction d as [|s d IH]; simpl; [reflexivity|].
  destruct (has_email e s); simpl; [now rewrite Hu | now rewrite IH].
Qed.

Lemma find_update_first e u d e0 :
  deactivating u ->
  find (has_email e0) (update_first e u d) =
    if String.eqb e0 e
    then option_map (fun s => mkSubscriber (email s) false) (find (has_email e) d)
    else find (has_email e0) d.
Proof.
  intros Hu. unfold has_email. induction d as [|s d IH]; simpl.
  - now destruct (String.eqb e0 e).
  - unfold has_email.
    destruct (String.eqb_spec (email s) e) as [E|E]; simpl.
    + rewrite Hu. simpl.
      destruct (String.eqb_spec e0 e) as [E0|E0].
      * subst e0. rewrite <- E. now rewrite String.eqb_refl.
      * destruct (String.eqb_spec (email s) e0); [congruence|reflexivity].
    + rewrite IH.
      destruct (String.eqb_spec (email s) e0) as [E1|E1];
        destruct (String.eqb_spec e0 e) as [E0|E0]; try reflexivity.
      congruence.
Qed.

Lemma flag_update_first e u w e0 :
  deactivating u ->
  flag (with_docs (update_first e u (docs w)) w) e0 =
    if String.eqb e0 e
    then option_map (fun _ => false) (flag w e)
    else flag w e0.
Proof.
  intros Hu. unfold flag. simpl. rewrite find_update_first by assumption.
  destruct (String.eqb e0 e); [|reflexivity].
  now destruct (find (has_email e) (docs w)).
Qed.

Lemma preserves_Subscriber_findOneAndUpdate e u :
  deactivating u -> preserves (Subscriber_findOneAndUpdate e u).
Proof.
  intros Hu.
  apply preserves_bind; [apply preserves_db_call | intros _].
  intros w. simpl. unfold Evolves, emails. simpl.
  rewrite map_email_update_first by assumption.
  repeat split; auto; try (exists []; now rewrite app_nil_r).
  intros e0 H. rewrite flag_update_first by assumption.
  destruct (String.eqb_spec e0 e) as [->|]; [|assumption].
  now rewrite H.
Qed.

Create HintDb pres.

#[local] Hint Resolve preserves_ret preserves_throw preserves_console_log
  preserves_console_error preserves_Date_now preserves_setTimeout
  preserves_db_call preserves_sendMail preserves_Subscriber_find
  preserves_Subscriber_find_countDocuments preserves_Subscriber_findOne
  preserves_Subscriber_save deactivating_A deactivating_B
  preserves_Subscriber_findOneAndUpdate : pres.

(** Walks through a handler: sequencing, [try], loops, branches. *)
Ltac pres :=
  repeat first
    [ solve [auto with pres]
    | apply preserves_bind; [|intros ?]
    | apply preserves_try_catch; [|intros ?]
    | apply preserves_for_of; intros ?
    | match goal with
      | |- preserves (if ?b then _ else _) => destruct b
      | |- preserves (match ?x with _ => _ end) => destruct x
      end ].

Lemma preserves_A_subscribe body : preserves (VariantA.subscribe body).
Proof. unfold VariantA.subscribe. pres. Qed.

Lemma preserves_A_site_status : preserves VariantA.site_status.
Proof. unfold VariantA.site_status. pres. Qed.

Lemma preserves_A_sendLiveNotificationEmails :
  preserves VariantA.sendLiveNotificationEmails.
Proof. unfold VariantA.sendLiveNotificationEmails. pres. Qed.

Lemma preserves_B_subscribe body : preserves (VariantB.subscribe body).
Proof. unfold VariantB.subscribe. pres. Qed.

Lemma preserves_B_site_status : preserves VariantB.site_status.
Proof. unfold VariantB.site_status. pres. Qed.

Lemma preserves_B_check_access body : preserves (VariantB.check_access body).
Proof. unfold VariantB.check_access. pres. Qed.

Lemma preserves_B_unsubscribe body : preserves (VariantB.unsubscribe body).
Proof.
  intros w. rewrite unsubscribe_throws. simpl.
  apply Evolves_same_docs; simpl; auto. exists []. now rewrite app_nil_r.
Qed.

Lemma preserves_B_notify s : preserves (VariantB.notify s).
Proof. unfold VariantB.notify. pres. Qed.

Lemma preserves_B_sendLiveNotificationEmails st :
  preserves (VariantB.sendLiveNotificationEmails st).
Proof.
  unfold VariantB.sendLiveNotificationEmails.
  pose proof preserves_B_notify. pres.
Qed.

Lemma Evolves_with_timers w t : Evolves w (with_timers t w).
Proof.
  apply Evolves_same_docs; simpl; auto. exists []. now rewrite app_nil_r.
Qed.

Lemma Evolves_with_now w t : Evolves w (with_now t w).
Proof.
  apply Evolves_same_docs; simpl; auto. exists []. now rewrite app_nil_r.
Qed.

Lemma Evolves_A_step ev w : Evolves w (VariantA.step ev w).
Proof.
  destruct ev; simpl.
  - apply Evolves_with_now.
  - apply preserves_A_subscribe.
  - apply preserves_A_site_status.
  - unfold VariantA.fire. destruct (nth_error (timers w) i); [|apply Evolves_refl].
    destruct (due t <=? now w); [|apply Evolves_refl].
    eapply Evolves_trans; [apply Evolves_with_timers|].
    apply preserves_A_sendLiveNotificationEmails.
Qed.

Lemma Evolves_B_step ev w : Evolves w (VariantB.step ev w).
Proof.
  destruct ev; simpl.
  - apply Evolves_with_now.
  - apply preserves_B_subscribe.
  - apply preserves_B_unsubscribe.
  - apply preserves_B_check_access.
  - apply preserves_B_site_status.
  - unfold VariantB.fire. destruct (nth_error (timers w) i); [|apply Evolves_refl].
    destruct (due t <=? now w); [|apply Evolves_refl].
    eapply Evolves_trans; [apply Evolves_with_timers|].
    apply preserves_B_sendLiveNotificationEmails.
Qed.

Lemma Evolves_A_run evs w : Evolves w (VariantA.run evs w).
Proof.
  revert w. induction evs as [|ev evs IH]; intros w; simpl.
  - apply Evolves_refl.
  - eapply Evolves_trans; [apply Evolves_A_step | apply IH].
Qed.

Lemma Evolves_B_run evs w : Evolves w (VariantB.run evs w).
Proof.
  revert w. induction evs as [|ev evs IH]; intros w; simpl.
  - apply Evolves_refl.
  - eapply Evolves_trans; [apply Evolves_B_step | apply IH].
Qed.

(** ** Subscribing twice *)

Lemma records_unique (e : string) (d : list Subscriber) :
  NoDup (map email d) -> In e (map email d) ->
  length (filter (has_email e) d) = 1%nat.
Proof.
  induction d as [|s d IH]; simpl; [intros _ []|].
  intros Hnd Hin. inversion Hnd as [|x l Hx Hl]; subst.
  unfold has_email at 1. destruct (String.eqb_spec (email s) e) as [E|E]; simpl.
  - f_equal. subst e.
    destruct (filter (has_email (email s)) d) as [|y r] eqn:F; [reflexivity|].
    exfalso. apply Hx.
    assert (Hy : In y (filter (has_email (email s)) d)) by (rewrite F; now left).
    apply filter_In in Hy. destruct Hy as [Hy Hm].
    apply String.eqb_eq in Hm. rewrite <- Hm. now apply in_map.
  - apply IH; [assumption|]. destruct Hin; [contradiction|assumption].
Qed.

(** A subscribe whose store call goes through leaves the address stored. *)
Lemma subscribe_stores (w : World) (e : string) :
  e <> "" -> dbUp w (dbOps w) = true ->
  In e (emails (exec (VariantA.subscribe (Some e)) w)) /\
  In e (emails (exec (VariantB.subscribe (Some e)) w)).
Proof.
  intros He Hdb. unfold exec, VariantA.subscribe, VariantB.subscribe.
  rewrite (nonempty_truthy e He).
  cbv [try_catch bind Subscriber_save sendMail db_call ret with_docs
       console_log console_error setTimeout with_timers emails
       dbOps dbUp docs mailOps mailUp outbox console now timers].
  destruct w as [d o c t tm n m db ml]. simpl in *. rewrite Hdb.
  destruct (existsb (has_email e) d) eqn:E; simpl.
  - apply existsb_has_email in E. auto.
  - assert (In e (map email (d ++ [mkSubscriber e true]))).
    { rewrite map_app. apply in_or_app. right. now left. }
    destruct (ml m); simpl; auto.
Qed.

(** Subscribing a stored address is refused and changes no record. *)
Lemma subscribe_duplicate (w : World) (e : string) :
  e <> "" -> In e (emails w) -> dbUp w (dbOps w) = true ->
  (fst (VariantA.subscribe (Some e) w)
     = Ok (res 400 (JError "This email is already subscribed.")) /\
   docs (exec (VariantA.subscribe (Some e)) w) = docs w) /\
  (fst (VariantB.subscribe (Some e) w)
     = Ok (res 400 (JError "This email is already subscribed.")) /\
   docs (exec (VariantB.subscribe (Some e)) w) = docs w).
Proof.
  intros He Hin Hdb. apply existsb_has_email in Hin.
  unfold exec, VariantA.subscribe, VariantB.subscribe.
  rewrite (nonempty_truthy e He).
  cbv [try_catch bind Subscriber_save sendMail db_call ret with_docs
       console_log console_error setTimeout with_timers emails
       dbOps dbUp docs mailOps mailUp outbox console now timers].
  destruct w as [d o c t tm n m db ml]. simpl in *. rewrite Hdb, Hin.
  simpl. auto.
Qed.

Lemma Evolves_keeps_email w w' e :
  Evolves w w' -> In e (emails w) -> In e (emails w').
Proof.
  intros ([l El] & _) Hin. rewrite El. apply in_or_app. now left.
Qed.

(** C3. With unique addresses in the store, after a subscribe for [e] that
    reached the store, whatever happens next, a second subscribe for [e]
    that reaches the store is answered 400 "This email is already
    subscribed." and the store holds exactly one record for [e]. *)
Theorem subscribe_twice_one_record (w : World) (e : string) :
  e <> "" ->
  NoDup (emails w) ->
  dbUp w (dbOps w) = true ->
  (forall evs,
     let w1 := VariantA.run evs (exec (VariantA.subscribe (Some e)) w) in
     dbUp w1 (dbOps w1) = true ->
     fst (VariantA.subscribe (Some e) w1)
       = Ok (res 400 (JError "This email is already subscribed.")) /\
     records e (exec (VariantA.subscribe (Some e)) w1) = 1%nat) /\
  (forall evs,
     let w1 := VariantB.run evs (exec (VariantB.subscribe (Some e)) w) in
     dbUp w1 (dbOps w1) = true ->
     fst (VariantB.subscribe (Some e) w1)
       = Ok (res 400 (JError "This email is already subscribed.")) /\
     records e (exec (VariantB.subscribe (Some e)) w1) = 1%nat).
Proof.
  intros He Hnd Hdb.
  destruct (subscribe_stores w e He Hdb) as [HA HB].
  split; intros evs w1 Hdb1.
  - pose proof (preserves_A_subscribe (Some e) w) as E0.
    pose proof (Evolves_A_run evs (exec (VariantA.subscribe (Some e)) w)) as E1.
    fold w1 in E1.
    assert (Hin : In e (emails w1)) by (eapply Evolves_keeps_email; eauto).
    assert (Hnd1 : NoDup (emails w1)).
    { destruct E0 as (_ & N0 & _), E1 as (_ & N1 & _). auto. }
    destruct (subscribe_duplicate w1 e He Hin Hdb1) as [[R D] _].
    split; [assumption|]. unfold records. rewrite D.
    now apply records_unique.
  - pose proof (preserves_B_subscribe (Some e) w) as E0.
    pose proof (Evolves_B_run evs (exec (VariantB.subscribe (Some e)) w)) as E1.
    fold w1 in E1.
    assert (Hin : In e (emails w1)) by (eapply Evolves_keeps_email; eauto).
    assert (Hnd1 : NoDup (emails w1)).
    { destruct E0 as (_ & N0 & _), E1 as (_ & N1 & _). auto. }
    destruct (subscribe_duplicate w1 e He Hin Hdb1) as [_ [R D]].
    split; [assumption|]. unfold records. rewrite D.
    now apply records_unique.
Qed.

Lemma subscribe_twice_witness :
  let w := fresh_process store_ab 0 (always true) (always true) in
  let w1 := VariantB.run [VariantB.Elapse 5000; VariantB.TimerFires 0]
              (exec (VariantB.subscribe (Some "x@y.net")) w) in
  fst (VariantB.subscribe (Some "x@y.net") w1)
    = Ok (res 400 (JError "This email is already subscribed.")) /\
  records "x@y.net" (exec (VariantB.subscribe (Some "x@y.net")) w1) = 1%nat.
Proof.
  apply (subscribe_twice_one_record
           (fresh_process store_ab 0 (always true) (always true)) "x@y.net").
  - discriminate.
  - repeat constructor; simpl; intuition discriminate.
  - reflexivity.
  - reflexivity.
Defined.

(** ** The expiry window of the second server *)

(** With two millisecond counts, the test of line 97 is the comparison the
    comment of the file describes. *)
Lemma elapsed_gt_limit (t t0 limit : Z) :
  Js.gt (Js.sub (Js.of_ms t) (Js.ToNumber (Js.Num (Js.of_ms t0))))
        (Js.of_ms limit)
  = (limit <? t - t0).
Proof.
  unfold Js.gt, Js.sub, Js.ToNumber, Js.of_ms, Qle_bool. simpl.
  destruct (Z.leb_spec ((t * 1 + - t0 * 1) * 1) (limit * 1));
    destruct (Z.ltb_spec limit (t - t0)); simpl; try reflexivity; lia.
Qed.

(** With a start time that is not a number, the test never holds. *)
Lemma elapsed_NaN (t limit : Z) (v : Js.Value) :
  Js.ToNumber v = Js.NaN ->
  Js.gt (Js.sub (Js.of_ms t) (Js.ToNumber v)) (Js.of_ms limit) = false.
Proof. intros H. rewrite H. reflexivity. Qed.

(** Had the callback passed its scheduling instant, a broadcast that comes
    more than [FOLLOW_UP_TIME_LIMIT] later would send nothing and change no
    record. *)
Lemma sendLive_abandoned_after_limit (w : World) (t0 : Z) :
  now w - t0 > VariantB.FOLLOW_UP_TIME_LIMIT ->
  let w' := exec (VariantB.sendLiveNotificationEmails (Js.Num (Js.of_ms t0))) w in
  outbox w' = outbox w /\ docs w' = docs w /\ mailOps w' = mailOps w.
Proof.
  intros H. unfold exec, VariantB.sendLiveNotificationEmails.
  cbv [try_catch bind Subscriber_find db_call Date_now].
  destruct (dbUp w (dbOps w)); [|simpl; auto].
  cbv [now]. rewrite elapsed_gt_limit. fold (now w).
  destruct (Z.ltb_spec VariantB.FOLLOW_UP_TIME_LIMIT (now w - t0)); [|lia].
  simpl. auto.
Qed.

(** C4. A subscription made at time 0 schedules its broadcast for time
    5000 with the address of the subscriber as start time; when the timer
    fires at time 6000, that is 6000 ms after it was scheduled and more
    than [FOLLOW_UP_TIME_LIMIT], the broadcast is not abandoned: the
    live-notification is sent and the subscriber is made active. *)
Theorem late_broadcast_still_sends :
  let w0 := fresh_process [] 0 (always true) (always true) in
  let w1 := VariantB.run late_trace w0 in
  let w2 := VariantB.step (VariantB.TimerFires 0) w1 in
  timers w1 = [mkTimer 5000 [Js.Str "a@b.com"]] /\
  now w1 - 0 > VariantB.FOLLOW_UP_TIME_LIMIT /\
  outbox w1 = [confirmation "a@b.com"] /\
  docs w1 = [mkSubscriber "a@b.com" true] /\
  outbox w2 = [confirmation "a@b.com"; liveNotification "a@b.com"] /\
  docs w2 = [mkSubscriber "a@b.com" false].
Proof. vm_compute. repeat split. Qed.

(** ** One broadcast pass, step by step *)

(** [followUpEmailSent] is [undefined] on every document, so the test of
    line 104 always holds. *)
Lemma notify_always_sends (s : Subscriber) :
  VariantB.notify s = send_and_mark update_B s.
Proof. reflexivity. Qed.

Lemma for_of_ext {A} (l : list A) (f g : A -> M unit) :
  (forall x, f x = g x) -> for_of l f = for_of l g.
Proof.
  intros H. induction l as [|x l IH]; simpl; [reflexivity|].
  now rewrite H, IH.
Qed.

Lemma A_pass_unfold :
  VariantA.sendLiveNotificationEmails =
    try_catch
      (subscribers <- Subscriber_find true ;;
       for_of subscribers (send_and_mark update_A) ;;
       console_log "All follow-up emails sent.")
      (fun error => console_error "Error while sending follow-up emails:" error).
Proof. reflexivity. Qed.

Lemma send_and_mark_ok u x w :
  mailUp w (mailOps w) = true ->
  dbUp w (dbOps w) = true ->
  send_and_mark u x w =
    (Ok tt,
     mkWorld (update_first (email x) u (docs w))
             (outbox w ++ [liveNotification (email x)])
             (console w ++ [Log ("Follow-up email sent to: " ++ email x)])
             (now w) (timers w) (S (dbOps w)) (S (mailOps w))
             (dbUp w) (mailUp w)).
Proof.
  intros Hm Hd.
  cbv [send_and_mark bind sendMail console_log Subscriber_findOneAndUpdate
       db_call with_docs
       dbOps dbUp docs mailOps mailUp outbox console now timers].
  destruct w as [d o c t tm n m db ml]. simpl in *. now rewrite Hm, Hd.
Qed.

Lemma send_and_mark_refused u x w :
  mailUp w (mailOps w) = false ->
  send_and_mark u x w =
    (Throw TransportError,
     mkWorld (docs w) (outbox w) (console w) (now w) (timers w)
             (dbOps w) (S (mailOps w)) (dbUp w) (mailUp w)).
Proof.
  intros Hm.
  cbv [send_and_mark bind sendMail
       dbOps dbUp docs mailOps mailUp outbox console now timers].
  destruct w as [d o c t tm n m db ml]. simpl in *. now rewrite Hm.
Qed.

(** The loop over [pre ++ s :: post] when the transport accepts the mails
    of [pre], refuses the mail of [s], and the store applies the updates:
    the loop ends at [s] with the exception of the transport. *)
Lemma loop_stops_at_refusal u (pre : list Subscriber) :
  forall (s : Subscriber) (post : list Subscriber) (w : World),
    (forall k, (k < length pre)%nat -> mailUp w (mailOps w + k) = true) ->
    mailUp w (mailOps w + length pre) = false ->
    (forall k, (k < length pre)%nat -> dbUp w (dbOps w + k) = true) ->
    let r := for_of (pre ++ s :: post) (send_and_mark u) w in
    fst r = Throw TransportError /\
    docs (snd r) = mark_all u pre (docs w) /\
    outbox (snd r) = (outbox w ++ map (fun x => liveNotification (email x)) pre)%list /\
    mailOps (snd r) = S (mailOps w + length pre) /\
    dbOps (snd r) = (dbOps w + length pre)%nat /\
    now (snd r) = now w /\ timers (snd r) = timers w /\
    dbUp (snd r) = dbUp w /\ mailUp (snd r) = mailUp w.
Proof.
  induction pre as [|x pre IH]; intros s post w Hm Hs Hd; cbv zeta.
  - simpl in *. rewrite Nat.add_0_r in Hs. unfold bind.
    rewrite (send_and_mark_refused u s w Hs). simpl.
    rewrite app_nil_r, !Nat.add_0_r. repeat split; reflexivity.
  - simpl app. simpl for_of. unfold bind.
    assert (Hm0 : mailUp w (mailOps w) = true).
    { rewrite <- (Nat.add_0_r (mailOps w)). apply Hm. simpl. lia. }
    assert (Hd0 : dbUp w (dbOps w) = true).
    { rewrite <- (Nat.add_0_r (dbOps w)). apply Hd. simpl. lia. }
    rewrite (send_and_mark_ok u x w Hm0 Hd0).
    match goal with |- context [for_of _ _ ?w1] => set (w1' := w1) end.
    specialize (IH s post w1').
    cbv zeta in IH.
    destruct IH as (R & D & O & MO & DO & N & T & DU & MU).
    + intros k Hk. subst w1'. simpl. rewrite <- Nat.add_succ_r.
      apply Hm. simpl. lia.
    + subst w1'. simpl. rewrite <- Nat.add_succ_r. exact Hs.
    + intros k Hk. subst w1'. simpl. rewrite <- Nat.add_succ_r.
      apply Hd. simpl. lia.
    + rewrite R, D, O, MO, DO, N, T, DU, MU. subst w1'. simpl.
      rewrite <- app_assoc. simpl.
      repeat split; try reflexivity; lia.
Qed.

Lemma flag_in_update_first e u d e0 :
  deactivating u ->
  flag_in (update_first e u d) e0 =
    if String.eqb e0 e then option_map (fun _ => false) (flag_in d e)
    else flag_in d e0.
Proof.
  intros Hu. unfold flag_in. rewrite find_update_first by assumption.
  destruct (String.eqb e0 e); [|reflexivity].
  now destruct (find (has_email e) d).
Qed.

Lemma mark_all_keeps_active u l : forall d e0,
  deactivating u ->
  flag_in d e0 = Some false -> flag_in (mark_all u l d) e0 = Some false.
Proof.
  induction l as [|x l IH]; intros d e0 Hu H; simpl; [assumption|].
  apply IH; [assumption|]. rewrite flag_in_update_first by assumption.
  destruct (String.eqb_spec e0 (email x)) as [<-|]; [|assumption].
  now rewrite H.
Qed.

Lemma mark_all_other u l : forall d e0,
  deactivating u ->
  ~ In e0 (map email l) -> flag_in (mark_all u l d) e0 = flag_in d e0.
Proof.
  induction l as [|x l IH]; intros d e0 Hu H; simpl; [reflexivity|].
  simpl in H. rewrite IH by tauto. rewrite flag_in_update_first by assumption.
  destruct (String.eqb_spec e0 (email x)) as [E|]; [|reflexivity].
  exfalso. apply H. left. now symmetry.
Qed.

Lemma mark_all_marked u l : forall d e0,
  deactivating u ->
  In e0 (map email l) -> flag_in d e0 <> None ->
  flag_in (mark_all u l d) e0 = Some false.
Proof.
  induction l as [|x l IH]; intros d e0 Hu Hin Hd; simpl; [destruct Hin|].
  destruct (String.eqb_spec e0 (email x)) as [E|E].
  - apply mark_all_keeps_active; [assumption|].
    rewrite flag_in_update_first by assumption. subst e0.
    rewrite String.eqb_refl. destruct (flag_in d (email x)); [reflexivity|].
    now elim Hd.
  - apply IH; [assumption| |].
    + destruct Hin as [H|H]; [now elim E|assumption].
    + rewrite flag_in_update_first by assumption.
      apply String.eqb_neq in E. now rewrite E.
Qed.

Lemma flag_in_member d : forall x,
  NoDup (map email d) -> In x d -> flag_in d (email x) = Some (isComingSoon x).
Proof.
  unfold flag_in. induction d as [|y d IH]; intros x Hnd Hin; [destruct Hin|].
  simpl in *. inversion Hnd as [|a l Ha Hl]; subst.
  unfold has_email at 1. destruct (String.eqb_spec (email y) (email x)) as [E|E].
  - destruct Hin as [->|Hin]; [reflexivity|].
    exfalso. apply Ha. rewrite E. now apply in_map.
  - destruct Hin as [->|Hin]; [now elim E|]. now apply IH.
Qed.

Lemma NoDup_emails_filter (f : Subscriber -> bool) d :
  NoDup (map email d) -> NoDup (map email (filter f d)).
Proof.
  induction d as [|y d IH]; simpl; intros Hnd; [constructor|].
  inversion Hnd as [|a l Ha Hl]; subst.
  destruct (f y); simpl; [|auto].
  constructor; [|auto]. intros Hin. apply Ha.
  apply in_map_iff in Hin. destruct Hin as [z [Ez Hz]].
  apply filter_In in Hz. rewrite <- Ez. apply in_map. tauto.
Qed.

Lemma A_pass_run w :
  dbUp w (dbOps w) = true ->
  VariantA.sendLiveNotificationEmails w =
    match for_of (filter awaiting (docs w)) (send_and_mark update_A) (answered w) with
    | (Ok _, w1) => console_log "All follow-up emails sent." w1
    | (Throw e, w1) => console_error "Error while sending follow-up emails:" e w1
    end.
Proof.
  intros H. rewrite A_pass_unfold.
  cbv [try_catch bind Subscriber_find db_call]. rewrite H.
  fold (answered w). fold awaiting.
  destruct (for_of _ _ _) as [[[]|e] w1]; reflexivity.
Qed.

Lemma B_pass_run w startTime :
  dbUp w (dbOps w) = true ->
  Js.gt (Js.sub (Js.of_ms (now w)) (Js.ToNumber startTime))
        (Js.of_ms VariantB.FOLLOW_UP_TIME_LIMIT) = false ->
  VariantB.sendLiveNotificationEmails startTime w =
    match for_of (filter awaiting (docs w)) (send_and_mark update_B) (answered w) with
    | (Ok _, w1) => console_log "All follow-up emails sent." w1
    | (Throw e, w1) => console_error "Error while sending follow-up emails:" e w1
    end.
Proof.
  intros H Hgt. unfold VariantB.sendLiveNotificationEmails.
  cbv [try_catch bind Subscriber_find db_call Date_now]. rewrite H.
  fold (answered w). fold awaiting.
  change (now (answered w)) with (now w). rewrite Hgt.
  rewrite (for_of_ext _ VariantB.notify (send_and_mark update_B)
             notify_always_sends).
  destruct (for_of _ _ _) as [[[]|e] w1]; reflexivity.
Qed.

Lemma NoDup_app_disjoint {A} (l1 l2 : list A) (a : A) :
  NoDup (l1 ++ l2) -> In a l1 -> In a l2 -> False.
Proof.
  induction l1 as [|x l1 IH]; simpl; intros Hnd H1 H2; [assumption|].
  inversion Hnd as [|y l Hy Hl]; subst.
  destruct H1 as [->|H1]; [|auto].
  apply Hy. apply in_or_app. now right.
Qed.

Lemma refusal_stops_loop u (w : World) (pre post : list Subscriber) (s : Subscriber) :
  deactivating u ->
  NoDup (emails w) ->
  filter awaiting (docs w) = (pre ++ s :: post)%list ->
  (forall k, (k <= length pre)%nat -> dbUp w (dbOps w + k) = true) ->
  (forall k, (k < length pre)%nat -> mailUp w (mailOps w + k) = true) ->
  mailUp w (mailOps w + length pre) = false ->
  stopped_at w
    (snd match for_of (filter awaiting (docs w)) (send_and_mark u) (answered w) with
         | (Ok _, w1) => console_log "All follow-up emails sent." w1
         | (Throw e, w1) =>
             console_error "Error while sending follow-up emails:" e w1
         end)
    pre s post.
Proof.
  intros Hu Hnd Hf Hdb Hm Hs. rewrite Hf.
  destruct (loop_stops_at_refusal u pre s post (answered w))
    as (R & D & O & MO & _); simpl; auto.
  { intros k Hk. rewrite <- Nat.add_succ_r. apply Hdb. lia. }
  destruct (for_of _ _ _) as [r w1]. simpl in R, D, O, MO. subst r.
  cbv iota beta.
  set (w' := snd (console_error _ _ w1)).
  assert (Hsub : forall x, In x (pre ++ s :: post) ->
                   In x (docs w) /\ isComingSoon x = true).
  { intros x Hx. rewrite <- Hf in Hx. apply filter_In in Hx.
    destruct Hx as [Hx Ha]. split; [assumption|].
    unfold awaiting in Ha. now destruct (isComingSoon x). }
  assert (Hnd' : NoDup (map email pre ++ map email (s :: post))).
  { rewrite <- map_app, <- Hf. now apply NoDup_emails_filter. }
  assert (Hfl : forall e, flag w' e = flag_in (mark_all u pre (docs w)) e).
  { intros e. unfold flag, flag_in. subst w'. simpl. now rewrite D. }
  unfold stopped_at.
  replace (outbox w') with (outbox w1) by reflexivity.
  replace (mailOps w') with (mailOps w1) by reflexivity.
  rewrite O, MO.
  split; [reflexivity|]. split; [|split; [|split; [reflexivity|]]].
  - intros x Hx. rewrite Hfl. apply mark_all_marked; [assumption|now apply in_map|].
    destruct (Hsub x) as [Hin _]; [apply in_or_app; now left|].
    unfold emails in Hnd. rewrite (flag_in_member _ _ Hnd Hin). discriminate.
  - intros x Hx. rewrite Hfl. rewrite mark_all_other; [|assumption|].
    + destruct (Hsub x) as [Hin Ht]; [apply in_or_app; now right|].
      unfold emails in Hnd. rewrite (flag_in_member _ _ Hnd Hin). now rewrite Ht.
    + intros Hp. apply (NoDup_app_disjoint _ _ (email x) Hnd' Hp).
      now apply in_map.
  - eexists. reflexivity.
Qed.

(** C5 (as the servers have it). When the transport refuses the mail of
    one pending subscriber [s], the single [catch] of the broadcast logs the
    error and the pass ends there: the subscribers before [s] have their
    live-notification and are active, [s] and every subscriber after it are
    still awaiting launch, and no send is attempted for those after [s];
    the partial batch is the final state of the pass. *)
Theorem refused_mail_ends_the_pass (w : World) (pre post : list Subscriber)
    (s : Subscriber) (startTime : Js.Value) :
  NoDup (emails w) ->
  filter awaiting (docs w) = (pre ++ s :: post)%list ->
  (forall k, (k <= length pre)%nat -> dbUp w (dbOps w + k) = true) ->
  (forall k, (k < length pre)%nat -> mailUp w (mailOps w + k) = true) ->
  mailUp w (mailOps w + length pre) = false ->
  Js.gt (Js.sub (Js.of_ms (now w)) (Js.ToNumber startTime))
        (Js.of_ms VariantB.FOLLOW_UP_TIME_LIMIT) = false ->
  stopped_at w (exec VariantA.sendLiveNotificationEmails w) pre s post /\
  stopped_at w (exec (VariantB.sendLiveNotificationEmails startTime) w)
             pre s post.
Proof.
  intros Hnd Hf Hdb Hm Hs Hgt.
  assert (H0 : dbUp w (dbOps w) = true).
  { rewrite <- (Nat.add_0_r (dbOps w)). apply Hdb. lia. }
  unfold exec. rewrite (A_pass_run w H0), (B_pass_run w startTime H0 Hgt).
  split; apply refusal_stops_loop; auto using deactivating_A, deactivating_B.
Qed.

Lemma refused_mail_witness :
  let w := fresh_process store_abc 0 (always true) refuse_second in
  stopped_at w (exec (VariantB.sendLiveNotificationEmails (Js.Str "a@b.com")) w)
    [mkSubscriber "a@b.com" true] (mkSubscriber "c@d.org" true)
    [mkSubscriber "e@f.net" true].
Proof.
  apply (refused_mail_ends_the_pass
           (fresh_process store_abc 0 (always true) refuse_second)
           [mkSubscriber "a@b.com" true] [mkSubscriber "e@f.net" true]
           (mkSubscriber "c@d.org" true) (Js.Str "a@b.com")).
  - repeat constructor; simpl; intuition discriminate.
  - reflexivity.
  - reflexivity.
  - intros k Hk. simpl in Hk. destruct k; [reflexivity | lia].
  - reflexivity.
  - reflexivity.
Defined.

(** C5 (as stated) fails: the transport refuses the first mail only; the
    pass stops there, so the second pending subscriber, whose mail would
    have been accepted, gets no mail and stays awaiting launch. *)
Lemma refused_mail_aborts_the_batch :
  let w := fresh_process
             [mkSubscriber "a@b.com" true; mkSubscriber "c@d.org" true] 0
             (always true) (fun n => negb (Nat.eqb n 0)) in
  let wA := exec VariantA.sendLiveNotificationEmails w in
  let wB := exec (VariantB.sendLiveNotificationEmails (Js.Str "a@b.com")) w in
  mailUp w 1 = true /\
  outbox wA = [] /\ mailOps wA = 1%nat /\ flag wA "c@d.org" = Some true /\
  outbox wB = [] /\ mailOps wB = 1%nat /\ flag wB "c@d.org" = Some true /\
  ~ (In (liveNotification "c@d.org") (outbox wA) \/
     In (liveNotification "c@d.org") (outbox wB)).
Proof.
  vm_compute. repeat split. intros [[]|[]].
Qed.

(** ** Timers, quiet steps and who is mailed *)

(** Walks through a handler for any relation, given a way to close the
    leaves. *)
Ltac walk_with leaf :=
  repeat first
    [ solve [leaf]
    | apply keeps_bind; [exact _ | | intros ?]
    | apply keeps_try_catch; [exact _ | | intros ?]
    | apply keeps_for_of; [exact _ | intros ?]
    | apply keeps_ret; exact _
    | match goal with
      | |- keeps _ (if ?b then _ else _) => destruct b
      | |- keeps _ (match ?x with _ => _ end) => destruct x
      end ].

#[local] Instance SameTimers_PreOrder : PreOrder SameTimers.
Proof.
  split; [intros w; reflexivity | intros a b c; unfold SameTimers; congruence].
Qed.

Lemma SameTimers_db_call : keeps SameTimers db_call.
Proof. intros w. unfold db_call. now destruct (dbUp w (dbOps w)). Qed.

Lemma SameTimers_sendMail m : keeps SameTimers (sendMail m).
Proof. intros w. unfold sendMail. now destruct (mailUp w (mailOps w)). Qed.

Lemma SameTimers_console_log msg : keeps SameTimers (console_log msg).
Proof. intros w. reflexivity. Qed.

Lemma SameTimers_console_error msg e : keeps SameTimers (console_error msg e).
Proof. intros w. reflexivity. Qed.

Lemma SameTimers_save e : keeps SameTimers (Subscriber_save e).
Proof.
  apply keeps_bind; [exact _ | apply SameTimers_db_call | intros _].
  intros w. simpl. now destruct (existsb (has_email e) (docs w)).
Qed.

Lemma SameTimers_find b : keeps SameTimers (Subscriber_find b).
Proof.
  apply keeps_bind; [exact _ | apply SameTimers_db_call | intros _].
  intros w. reflexivity.
Qed.

Lemma SameTimers_findOneAndUpdate e u :
  keeps SameTimers (Subscriber_findOneAndUpdate e u).
Proof.
  apply keeps_bind; [exact _ | apply SameTimers_db_call | intros _].
  intros w. reflexivity.
Qed.

Create HintDb same_timers.

#[local] Hint Resolve SameTimers_db_call SameTimers_sendMail
  SameTimers_console_log SameTimers_console_error SameTimers_save
  SameTimers_find SameTimers_findOneAndUpdate : same_timers.



Lemma SameTimers_A_pass : keeps SameTimers VariantA.sendLiveNotificationEmails.
Proof.
  unfold VariantA.sendLiveNotificationEmails.
  walk_with ltac:(auto with same_timers).
Qed.


#[local] Instance Quiet_PreOrder : PreOrder Quiet.
Proof.
  split.
  - intros w. split; exists []; now rewrite app_nil_r.
  - intros a b c ((l1 & D1 & F1) & (m1 & O1 & G1))
                 ((l2 & D2 & F2) & (m2 & O2 & G2)).
    split.
    + exists (l1 ++ l2)%list. rewrite D2, D1, app_assoc.
      split; [reflexivity | apply Forall_app; now split].
    + exists (m1 ++ m2)%list. rewrite O2, O1, app_assoc.
      split; [reflexivity | apply Forall_app; now split].
Qed.

Lemma Quiet_same w w' :
  docs w' = docs w -> outbox w' = outbox w -> Quiet w w'.
Proof.
  intros D O. split; exists []; now rewrite app_nil_r.
Qed.

Lemma Quiet_db_call : keeps Quiet db_call.
Proof.
  intros w. unfold db_call. destruct (dbUp w (dbOps w)); now apply Quiet_same.
Qed.

Lemma Quiet_console_log msg : keeps Quiet (console_log msg).
Proof. intros w. now apply Quiet_same. Qed.

Lemma Quiet_console_error msg e : keeps Quiet (console_error msg e).
Proof. intros w. now apply Quiet_same. Qed.

Lemma Quiet_setTimeout a delay : keeps Quiet (setTimeout a delay).
Proof. intros w. now apply Quiet_same. Qed.

Lemma Quiet_find b : keeps Quiet (Subscriber_find b).
Proof.
  apply keeps_bind; [exact _ | apply Quiet_db_call | intros _].
  intros w. now apply Quiet_same.
Qed.

Lemma Quiet_findOne e : keeps Quiet (Subscriber_findOne e).
Proof.
  apply keeps_bind; [exact _ | apply Quiet_db_call | intros _].
  intros w. now apply Quiet_same.
Qed.

Lemma Quiet_find_countDocuments b : keeps Quiet (Subscriber_find_countDocuments b).
Proof.
  apply keeps_bind; [exact _ | apply Quiet_db_call | intros _].
  intros w. now apply Quiet_same.
Qed.

Lemma Quiet_save e : keeps Quiet (Subscriber_save e).
Proof.
  apply keeps_bind; [exact _ | apply Quiet_db_call | intros _].
  intros w. simpl. destruct (existsb (has_email e) (docs w)); simpl.
  - now apply Quiet_same.
  - split.
    + exists [mkSubscriber e true]. split; [reflexivity|]. now repeat constructor.
    + exists []. now rewrite app_nil_r.
Qed.

Lemma Quiet_confirmation e : keeps Quiet (sendMail (confirmation e)).
Proof.
  intros w. unfold sendMail. destruct (mailUp w (mailOps w)); simpl.
  - split.
    + exists []. now rewrite app_nil_r.
    + exists [confirmation e]. split; [reflexivity|]. now repeat constructor.
  - now apply Quiet_same.
Qed.

Create HintDb quiet.

#[local] Hint Resolve Quiet_db_call Quiet_console_log Quiet_console_error
  Quiet_setTimeout Quiet_find Quiet_findOne Quiet_find_countDocuments
  Quiet_save Quiet_confirmation : quiet.

Lemma Quiet_A_subscribe body : keeps Quiet (VariantA.subscribe body).
Proof. unfold VariantA.subscribe. walk_with ltac:(auto with quiet). Qed.

Lemma Quiet_A_site_status : keeps Quiet VariantA.site_status.
Proof. unfold VariantA.site_status. walk_with ltac:(auto with quiet). Qed.

Lemma Quiet_B_subscribe body : keeps Quiet (VariantB.subscribe body).
Proof. unfold VariantB.subscribe. walk_with ltac:(auto with quiet). Qed.

Lemma Quiet_B_site_status : keeps Quiet VariantB.site_status.
Proof. unfold VariantB.site_status. walk_with ltac:(auto with quiet). Qed.

Lemma Quiet_B_check_access body : keeps Quiet (VariantB.check_access body).
Proof. unfold VariantB.check_access. walk_with ltac:(auto with quiet). Qed.

Lemma Quiet_B_unsubscribe body : keeps Quiet (VariantB.unsubscribe body).
Proof. intros w. rewrite unsubscribe_throws. now apply Quiet_same. Qed.

Lemma live_count_app e l l' :
  live_count e (l ++ l') = (live_count e l + live_count e l')%nat.
Proof. unfold live_count. now rewrite filter_app, length_app. Qed.

Lemma live_count_confirmations e m :
  Forall (fun x => subject x = "Subscription Confirmation") m ->
  live_count e m = 0%nat.
Proof.
  unfold live_count. induction 1 as [|x m Hx Hm IH]; simpl; [reflexivity|].
  rewrite Hx. simpl. rewrite Bool.andb_false_r. exact IH.
Qed.


Lemma find_app_none {A} (f : A -> bool) (l l' : list A) :
  find f l = None -> find f (l ++ l') = find f l'.
Proof.
  induction l as [|y l IH]; simpl; [reflexivity|].
  destruct (f y); [discriminate | exact IH].
Qed.


#[local] Instance KeepsOnlyStored_PreOrder : PreOrder KeepsOnlyStored.
Proof.
  split; [intros w H; exact H | intros a b c Hab Hbc H; auto].
Qed.

Lemma send_and_mark_outbox u x w :
  outbox (snd (send_and_mark u x w)) = outbox w \/
  outbox (snd (send_and_mark u x w))
    = (outbox w ++ [liveNotification (email x)])%list.
Proof.
  destruct (mailUp w (mailOps w)) eqn:Hm.
  - right.
    cbv [send_and_mark bind sendMail console_log Subscriber_findOneAndUpdate
         db_call with_docs].
    rewrite Hm. simpl. now destruct (dbUp w (dbOps w)).
  - left. now rewrite (send_and_mark_refused u x w Hm).
Qed.

(** The mails a loop over [l] adds go to addresses of [l]. *)
Lemma loop_outbox u l : forall w,
  exists m,
    outbox (snd (for_of l (send_and_mark u) w)) = (outbox w ++ m)%list /\
    Forall (fun x => In (to x) (map email l)) m.
Proof.
  induction l as [|x l IH]; intros w; simpl.
  - exists []. now rewrite app_nil_r.
  - unfold bind. pose proof (send_and_mark_outbox u x w) as H.
    destruct (send_and_mark u x w) as [[[]|e] w1]; simpl in H.
    + destruct (IH w1) as (m & O & F). rewrite O.
      assert (F' : Forall (fun y => In (to y) (email x :: map email l)) m).
      { eapply Forall_impl; [|exact F]. intros y Hy. now right. }
      destruct H as [H|H]; rewrite H.
      * exists m. now split.
      * exists (liveNotification (email x) :: m). rewrite <- app_assoc.
        split; [reflexivity|]. constructor; [now left | exact F'].
    + simpl. destruct H as [H|H]; rewrite H.
      * exists []. now rewrite app_nil_r.
      * exists [liveNotification (email x)]. split; [reflexivity|].
        constructor; [now left | constructor].
Qed.

Lemma A_pass_outbox w :
  exists m,
    outbox (exec VariantA.sendLiveNotificationEmails w) = (outbox w ++ m)%list /\
    Forall (fun x => In (to x) (emails w)) m.
Proof.
  unfold exec. rewrite A_pass_unfold.
  cbv [try_catch bind Subscriber_find db_call].
  destruct (dbUp w (dbOps w)).
  - fold (answered w). fold awaiting.
    destruct (loop_outbox update_A (filter awaiting (docs w)) (answered w))
      as (m & O & F).
    destruct (for_of _ _ _) as [[[]|e] w1]; simpl in *; rewrite O;
      exists m; (split; [reflexivity|]);
      (eapply Forall_impl; [|exact F]); intros y Hy;
      apply in_map_iff in Hy; destruct Hy as [s [Es Hs]];
      apply filter_In in Hs; rewrite <- Es; apply in_map; tauto.
  - simpl. exists []. now rewrite app_nil_r.
Qed.

Lemma OnlyStored_A_step ev w : KeepsOnlyStored w (VariantA.step ev w).
Proof.
  intros H. pose proof (Evolves_A_step ev w) as Ev.
  assert (Hcalm : Quiet w (VariantA.step ev w) -> OnlyStored (VariantA.step ev w)).
  { intros (_ & (m & O & G)) x Hx Hs. rewrite O in Hx.
    apply in_app_or in Hx. destruct Hx as [Hx|Hx].
    - eapply Evolves_keeps_email; [exact Ev | now apply H].
    - rewrite Forall_forall in G. rewrite (G x Hx) in Hs. discriminate. }
  destruct ev as [ms|body| |i].
  - apply Hcalm. now apply Quiet_same.
  - apply Hcalm. apply Quiet_A_subscribe.
  - apply Hcalm. apply Quiet_A_site_status.
  - clear Hcalm. simpl in *. unfold VariantA.fire in *.
    destruct (nth_error (timers w) i) as [t|]; [|exact H].
    destruct (due t <=? now w); [|exact H].
    destruct (A_pass_outbox (with_timers (remove_nth i (timers w)) w))
      as (m & O & F).
    intros x Hx Hs. rewrite O in Hx. simpl in Hx.
    apply in_app_or in Hx.
    eapply Evolves_keeps_email; [exact Ev|].
    destruct Hx as [Hx|Hx]; [now apply H|].
    rewrite Forall_forall in F. exact (F x Hx).
Qed.

Lemma OnlyStored_A_run evs w : OnlyStored w -> OnlyStored (VariantA.run evs w).
Proof. exact (keeps_run KeepsOnlyStored VariantA.step evs OnlyStored_A_step w). Qed.


(** ** Counting live-notifications *)

Lemma live_count_one e a :
  live_count e [liveNotification a] = if String.eqb a e then 1%nat else 0%nat.
Proof.
  unfold live_count. simpl. rewrite Bool.andb_true_r.
  now destruct (String.eqb a e).
Qed.

(** ** The lifecycle flag *)

(** X7. ACTIVE is terminal: along any run of either server a subscriber
    that is active stays stored and active. *)
Lemma active_is_terminal (w : World) (e : string) :
  flag w e = Some false ->
  (forall evs, flag (VariantA.run evs w) e = Some false) /\
  (forall evs, flag (VariantB.run evs w) e = Some false).
Proof.
  intros H. split; intros evs.
  - destruct (Evolves_A_run evs w) as (_ & _ & F & _). auto.
  - destruct (Evolves_B_run evs w) as (_ & _ & F & _). auto.
Qed.

(** A record that appears during an event is awaiting launch, unless the
    event is a broadcast of the second kind of step, which creates none. *)
Lemma created_awaiting (w : World) (e : string) (body : option string) :
  flag w e = None ->
  (flag (exec (VariantA.subscribe body) w) e = None \/
   flag (exec (VariantA.subscribe body) w) e = Some true) /\
  (flag (exec (VariantB.subscribe body) w) e = None \/
   flag (exec (VariantB.subscribe body) w) e = Some true).
Proof.
  intros H.
  assert (Hq : forall w', Quiet w w' -> flag w' e = None \/ flag w' e = Some true).
  { intros w' ((l & D & F) & _). unfold flag in *. rewrite D.
    destruct (find (has_email e) (docs w)) eqn:E; [discriminate|].
    rewrite (find_app_none _ _ _ E).
    destruct (find (has_email e) l) as [s|] eqn:El; [|now left].
    right. apply find_some in El. destruct El as [Hs _].
    rewrite Forall_forall in F. simpl. now rewrite (F s Hs). }
  split; apply Hq; [apply Quiet_A_subscribe | apply Quiet_B_subscribe].
Qed.

(** No document read through the model has [followUpEmailSent]. *)
Lemma followUpEmailSent_undefined (s : Subscriber) :
  doc_get s "followUpEmailSent" = Js.Undefined.
Proof. reflexivity. Qed.

(** The update of the second server, once cast, is the update of the
    first one. *)
Lemma update_B_cast : castUpdate update_B = update_A.
Proof. reflexivity. Qed.

(** C1. One subscription, then its broadcast with the mail accepted: the
    record of the subscriber ends with [isComingSoon = false] and without
    [followUpEmailSent]; the update names the path, the schema does not
    declare it, and the cast removes it.  The flip itself happens once and
    is never undone (see [active_is_terminal]). *)
Theorem followUpEmailSent_is_never_stored :
  let w := VariantB.run subscribe_then_broadcast
             (fresh_process [] 0 (always true) (always true)) in
  outbox w = [confirmation "a@b.com"; liveNotification "a@b.com"] /\
  docs w = [mkSubscriber "a@b.com" false] /\
  castUpdate update_B = [("isComingSoon", Js.Boolean false)] /\
  Forall (fun s => doc_get s "followUpEmailSent" = Js.Undefined) (docs w).
Proof.
  vm_compute. repeat split. repeat constructor.
Qed.

(** ** A broadcast resumed step by step is the broadcast *)

Lemma rest_of_pass_nil w :
  rest_of_pass [] w = console_log "All follow-up emails sent." w.
Proof. reflexivity. Qed.

Lemma rest_of_pass_cons s l w :
  rest_of_pass (s :: l) w =
    match send_and_mark update_B s w with
    | (Ok _, w1) => rest_of_pass l w1
    | (Throw e, w1) => on_error e w1
    end.
Proof.
  unfold rest_of_pass. simpl for_of. rewrite notify_always_sends.
  unfold try_catch, bind.
  destruct (send_and_mark update_B s w) as [[[]|e] w1]; reflexivity.
Qed.

Lemma next_cons s l w : VariantB.next (s :: l) w = (Ok (VariantB.Sending s l), w).
Proof. reflexivity. Qed.

Lemma run_task_Finished fuel w : VariantB.run_task fuel VariantB.Finished w = w.
Proof. now destruct fuel. Qed.

Lemma send_and_mark_db_down u x w :
  mailUp w (mailOps w) = true ->
  dbUp w (dbOps w) = false ->
  send_and_mark u x w =
    (Throw MongoNetworkError,
     mkWorld (docs w) (outbox w ++ [liveNotification (email x)])
             (console w ++ [Log ("Follow-up email sent to: " ++ email x)])
             (now w) (timers w) (S (dbOps w)) (S (mailOps w))
             (dbUp w) (mailUp w)).
Proof.
  intros Hm Hd.
  cbv [send_and_mark bind sendMail console_log Subscriber_findOneAndUpdate
       db_call with_docs
       dbOps dbUp docs mailOps mailUp outbox console now timers].
  destruct w as [d o c t tm n m db ml]. simpl in *. now rewrite Hm, Hd.
Qed.

Lemma next_total l : forall w, exists t w', VariantB.next l w = (Ok t, w').
Proof.
  induction l as [|s l IH]; intros w.
  - eexists. eexists. reflexivity.
  - rewrite next_cons. eauto.
Qed.

Lemma resume_Sending s rest w :
  VariantB.resume (VariantB.Sending s rest) w =
    if mailUp w (mailOps w)
    then (Ok (VariantB.Updating s rest), mailed s w)
    else (Ok VariantB.Finished,
          snd (on_error TransportError (snd (send_and_mark update_B s w)))).
Proof.
  destruct (mailUp w (mailOps w)) eqn:Hm.
  - cbv [VariantB.resume try_catch bind sendMail console_log ret mailed].
    rewrite Hm. reflexivity.
  - rewrite (send_and_mark_refused update_B s w Hm).
    cbv [VariantB.resume try_catch bind sendMail console_log ret].
    rewrite Hm. reflexivity.
Qed.

Lemma send_and_mark_mailed u s w :
  mailUp w (mailOps w) = true ->
  send_and_mark u s w = Subscriber_findOneAndUpdate (email s) u (mailed s w).
Proof.
  intros Hm. cbv [send_and_mark bind sendMail console_log mailed].
  now rewrite Hm.
Qed.

Lemma resume_Updating s rest w :
  VariantB.resume (VariantB.Updating s rest) w =
    match Subscriber_findOneAndUpdate (email s) update_B w with
    | (Ok _, w1) => VariantB.next rest w1
    | (Throw e, w1) => (Ok VariantB.Finished, snd (on_error e w1))
    end.
Proof.
  cbv [VariantB.resume try_catch bind]. fold update_B.
  destruct (Subscriber_findOneAndUpdate (email s) update_B w) as [[[]|e] w1].
  - destruct (next_total rest w1) as (t & w2 & E). now rewrite E.
  - reflexivity.
Qed.

(** Resuming from the head of the loop, with two steps of fuel for each
    remaining subscriber, ends in the world the loop of the source ends
    in. *)
Lemma run_task_rest l : forall w fuel,
  (2 * length l <= fuel)%nat ->
  match VariantB.next l w with
  | (Ok t, w1) => VariantB.run_task fuel t w1
  | (Throw _, w1) => w1
  end = exec (rest_of_pass l) w.
Proof.
  induction l as [|s l IH]; intros w fuel Hf.
  - simpl. now rewrite run_task_Finished.
  - rewrite next_cons. unfold exec. rewrite rest_of_pass_cons.
    destruct fuel as [|[|fuel]]; simpl in Hf; try lia.
    assert (Hf' : (2 * length l <= fuel)%nat) by lia.
    cbn [VariantB.run_task]. rewrite resume_Sending.
    destruct (mailUp w (mailOps w)) eqn:Hm.
    + rewrite (send_and_mark_mailed update_B s w Hm).
      cbn [VariantB.run_task]. rewrite resume_Updating.
      destruct (Subscriber_findOneAndUpdate (email s) update_B (mailed s w))
        as [[[]|e] w1].
      * specialize (IH w1 fuel Hf').
        destruct (next_total l w1) as (t & w2 & E). rewrite E in *.
        exact IH.
      * now rewrite run_task_Finished.
    + rewrite ?run_task_Finished.
      now rewrite (send_and_mark_refused update_B s w Hm).
Qed.

(** X19. The broadcast of the second server, resumed at each [await] with
    nothing in between, ends, after at most two resumptions for each stored
    record and one more, in the world [sendLiveNotificationEmails] ends
    in. *)
Lemma run_task_is_the_pass (startTime : Js.Value) (w : World) (fuel : nat) :
  (2 * length (docs w) + 1 <= fuel)%nat ->
  VariantB.run_task fuel (VariantB.Started startTime) w
  = exec (VariantB.sendLiveNotificationEmails startTime) w.
Proof.
  intros Hf. destruct fuel as [|fuel]; [lia|].
  cbn [VariantB.run_task]. unfold exec.
  cbv [VariantB.resume VariantB.sendLiveNotificationEmails try_catch bind
       Subscriber_find db_call Date_now].
  destruct (dbUp w (dbOps w)).
  - fold (answered w). fold awaiting.
    change (docs (answered w)) with (docs w).
    destruct (Js.gt _ _).
    + cbv [console_log ret]. rewrite ?run_task_Finished. reflexivity.
    + assert (Hl : (2 * length (filter awaiting (docs w)) <= fuel)%nat).
      { pose proof (filter_length_le awaiting (docs w)). lia. }
      pose proof (run_task_rest (filter awaiting (docs w)) (answered w) fuel Hl)
        as H.
      destruct (next_total (filter awaiting (docs w)) (answered w))
        as (t & w1 & E).
      rewrite E in *. rewrite H. unfold exec, rest_of_pass, try_catch, bind.
      destruct (for_of _ _ _) as [[[]|e] w2]; reflexivity.
  - cbv [console_error ret]. rewrite ?run_task_Finished. reflexivity.
Qed.

(** ** A flip needs an accepted live-notification *)

Lemma flag_stored w e : flag w e <> None <-> In e (emails w).
Proof.
  unfold flag, emails. split.
  - destruct (find (has_email e) (docs w)) as [s|] eqn:F; [|now intros []].
    intros _. apply find_some in F. destruct F as [Hs He].
    apply String.eqb_eq in He. rewrite <- He. now apply in_map.
  - intros Hin H. apply existsb_has_email in Hin.
    apply existsb_exists in Hin. destruct Hin as [s [Hs He]].
    destruct (find (has_email e) (docs w)) eqn:F; [discriminate|].
    now rewrite (find_none _ _ F s Hs) in He.
Qed.

Lemma Evolves_live_count w w' e :
  Evolves w w' -> (live_count e (outbox w) <= live_count e (outbox w'))%nat.
Proof.
  intros (_ & _ & _ & (m & O) & _). rewrite O, live_count_app. lia.
Qed.

Lemma Evolves_stays_stored w w' e :
  Evolves w w' -> flag w e <> None -> flag w' e <> None.
Proof.
  intros Ev H. apply flag_stored. apply flag_stored in H.
  eapply Evolves_keeps_email; eassumption.
Qed.

Lemma preserves_send_and_mark u s :
  deactivating u -> preserves (send_and_mark u s).
Proof. intros Hu. unfold send_and_mark. pres. Qed.

Lemma preserves_loop u l :
  deactivating u -> preserves (for_of l (send_and_mark u)).
Proof.
  intros Hu. apply preserves_for_of. intros x.
  now apply preserves_send_and_mark.
Qed.

(** In the loop, a record goes from awaiting to active only with a
    live-notification accepted for its address. *)
Lemma loop_flip u l : forall w e,
  deactivating u ->
  flag w e = Some true ->
  flag (snd (for_of l (send_and_mark u) w)) e = Some false ->
  (live_count e (outbox w)
   < live_count e (outbox (snd (for_of l (send_and_mark u) w))))%nat.
Proof.
  induction l as [|x l IH]; intros w e Hu Ht Hf; simpl in *; [congruence|].
  unfold bind in *. destruct (mailUp w (mailOps w)) eqn:Hm.
  - destruct (dbUp w (dbOps w)) eqn:Hd.
    + rewrite (send_and_mark_ok u x w Hm Hd) in *.
      match type of Hf with
      | flag (snd (for_of _ _ ?w1)) _ = _ => set (w1' := w1) in *
      end.
      pose proof (preserves_loop u l Hu w1') as Ev.
      pose proof (Evolves_live_count _ _ e Ev) as Hmono.
      assert (Hc : live_count e (outbox w1')
                   = (live_count e (outbox w)
                      + if String.eqb (email x) e then 1 else 0)%nat).
      { subst w1'. simpl outbox. now rewrite live_count_app, live_count_one. }
      destruct (String.eqb_spec (email x) e) as [E|E]; [lia|].
      assert (Ht1 : flag w1' e = Some true).
      { subst w1'. unfold flag. simpl docs.
        fold (flag_in (update_first (email x) u (docs w)) e).
        rewrite flag_in_update_first by assumption.
        rewrite String.eqb_sym. apply String.eqb_neq in E. now rewrite E. }
      specialize (IH w1' e Hu Ht1 Hf). lia.
    + rewrite (send_and_mark_db_down u x w Hm Hd) in *. simpl in Hf.
      unfold flag in *. simpl in Hf. congruence.
  - rewrite (send_and_mark_refused u x w Hm) in *. simpl in Hf.
    unfold flag in *. simpl in Hf. congruence.
Qed.

Lemma A_pass_flip w e :
  flag w e = Some true ->
  flag (exec VariantA.sendLiveNotificationEmails w) e = Some false ->
  (live_count e (outbox w)
   < live_count e (outbox (exec VariantA.sendLiveNotificationEmails w)))%nat.
Proof.
  unfold exec. rewrite A_pass_unfold.
  cbv [try_catch bind Subscriber_find db_call].
  destruct (dbUp w (dbOps w)).
  - fold (answered w). fold awaiting. intros Ht Hf.
    pose proof (loop_flip update_A (filter awaiting (docs (answered w)))
                  (answered w) e deactivating_A Ht) as H.
    destruct (for_of _ _ _) as [[[]|err] w1]; simpl in *; now apply H.
  - simpl. unfold flag. simpl. congruence.
Qed.

Lemma B_pass_flip startTime w e :
  flag w e = Some true ->
  flag (exec (VariantB.sendLiveNotificationEmails startTime) w) e = Some false ->
  (live_count e (outbox w)
   < live_count e
       (outbox (exec (VariantB.sendLiveNotificationEmails startTime) w)))%nat.
Proof.
  unfold exec, VariantB.sendLiveNotificationEmails.
  cbv [try_catch bind Subscriber_find db_call Date_now].
  destruct (dbUp w (dbOps w)).
  - fold (answered w). fold awaiting. destruct (Js.gt _ _).
    + simpl. unfold flag. simpl. congruence.
    + rewrite (for_of_ext _ VariantB.notify (send_and_mark update_B)
                 notify_always_sends).
      intros Ht Hf.
      pose proof (loop_flip update_B (filter awaiting (docs (answered w)))
                    (answered w) e deactivating_B Ht) as H.
      destruct (for_of _ _ _) as [[[]|err] w1]; simpl in *; now apply H.
  - simpl. unfold flag. simpl. congruence.
Qed.

Lemma Quiet_no_flip w w' e :
  Quiet w w' -> flag w e = Some true -> flag w' e = Some false -> False.
Proof.
  intros ((l & D & _) & _) Ht Hf. unfold flag in *. rewrite D in Hf.
  destruct (find (has_email e) (docs w)) as [s|] eqn:F; [|discriminate].
  rewrite (find_app_some _ _ _ _ F) in Hf. simpl in *. congruence.
Qed.

Lemma A_step_flip ev w e :
  flag w e = Some true -> flag (VariantA.step ev w) e = Some false ->
  (live_count e (outbox w) < live_count e (outbox (VariantA.step ev w)))%nat.
Proof.
  intros Ht Hf. destruct ev as [ms|body| |i].
  - exfalso. apply (Quiet_no_flip w _ e (Quiet_same w _ eq_refl eq_refl) Ht Hf).
  - exfalso. exact (Quiet_no_flip w _ e (Quiet_A_subscribe body w) Ht Hf).
  - exfalso. exact (Quiet_no_flip w _ e (Quiet_A_site_status w) Ht Hf).
  - simpl in *. unfold VariantA.fire in *.
    destruct (nth_error (timers w) i) as [t|]; [|congruence].
    destruct (due t <=? now w); [|congruence].
    now apply (A_pass_flip (with_timers (remove_nth i (timers w)) w) e).
Qed.

Lemma B_step_flip ev w e :
  flag w e = Some true -> flag (VariantB.step ev w) e = Some false ->
  (live_count e (outbox w) < live_count e (outbox (VariantB.step ev w)))%nat.
Proof.
  intros Ht Hf. destruct ev as [ms|body|body|body| |i].
  - exfalso. apply (Quiet_no_flip w _ e (Quiet_same w _ eq_refl eq_refl) Ht Hf).
  - exfalso. exact (Quiet_no_flip w _ e (Quiet_B_subscribe body w) Ht Hf).
  - exfalso. exact (Quiet_no_flip w _ e (Quiet_B_unsubscribe body w) Ht Hf).
  - exfalso. exact (Quiet_no_flip w _ e (Quiet_B_check_access body w) Ht Hf).
  - exfalso. exact (Quiet_no_flip w _ e (Quiet_B_site_status w) Ht Hf).
  - simpl in *. unfold VariantB.fire in *.
    destruct (nth_error (timers w) i) as [t|]; [|congruence].
    destruct (due t <=? now w); [|congruence].
    now apply (B_pass_flip _ (with_timers (remove_nth i (timers w)) w) e).
Qed.

(** X8. Along any run of either server, a subscriber found active that
    was awaiting launch at the start has had a live-notification accepted
    for its address in between. *)
Lemma flip_needs_live_notification (w : World) (e : string) :
  flag w e = Some true ->
  (forall evs, flag (VariantA.run evs w) e = Some false ->
     (live_count e (outbox w) < live_count e (outbox (VariantA.run evs w)))%nat) /\
  (forall evs, flag (VariantB.run evs w) e = Some false ->
     (live_count e (outbox w) < live_count e (outbox (VariantB.run evs w)))%nat).
Proof.
  intros Ht. split; intros evs; revert w Ht.
  - induction evs as [|ev evs IH]; intros w Ht Hf; [simpl in Hf; congruence|].
    change (VariantA.run (ev :: evs) w)
      with (VariantA.run evs (VariantA.step ev w)) in *.
    pose proof (Evolves_A_step ev w) as E1.
    pose proof (Evolves_A_run evs (VariantA.step ev w)) as E2.
    destruct (flag (VariantA.step ev w) e) as [[|]|] eqn:F.
    + specialize (IH _ F Hf). pose proof (Evolves_live_count _ _ e E1). lia.
    + pose proof (A_step_flip ev w e Ht F).
      pose proof (Evolves_live_count _ _ e E2). lia.
    + exfalso. apply (Evolves_stays_stored _ _ e E1); [congruence | exact F].
  - induction evs as [|ev evs IH]; intros w Ht Hf; [simpl in Hf; congruence|].
    change (VariantB.run (ev :: evs) w)
      with (VariantB.run evs (VariantB.step ev w)) in *.
    pose proof (Evolves_B_step ev w) as E1.
    pose proof (Evolves_B_run evs (VariantB.step ev w)) as E2.
    destruct (flag (VariantB.step ev w) e) as [[|]|] eqn:F.
    + specialize (IH _ F Hf). pose proof (Evolves_live_count _ _ e E1). lia.
    + pose proof (B_step_flip ev w e Ht F).
      pose proof (Evolves_live_count _ _ e E2). lia.
    + exfalso. apply (Evolves_stays_stored _ _ e E1); [congruence | exact F].
Qed.

(** * Further properties of the handlers *)

(** ** Requests without an address *)

Lemma nonempty_string (c : ascii) (s : string) :
  negb (Js.ToBoolean (Js.Str (String c s))) = false.
Proof. reflexivity. Qed.

(** Unfolds a handler down to the oracles it consults. *)
Ltac run_handler :=
  cbv [try_catch bind ret throw Subscriber_save Subscriber_find
       Subscriber_findOne Subscriber_find_countDocuments
       Subscriber_findOneAndUpdate sendMail db_call with_docs with_timers
       console_log console_error setTimeout Date_now is_duplicate_key err_code
       dbOps dbUp docs mailOps mailUp outbox console now timers fst snd].

(** When [email] is absent or a string, "Email is required" (400) is the
    answer of subscribe, in both servers, and of check-access exactly when
    it is absent or empty; such a request leaves the world as it was. *)
Lemma email_required_absent_or_string (body : option string) (w : World) :
  let required := Ok (res 400 (JError "Email is required")) in
  (fst (VariantA.subscribe body w) = required
     <-> body = None \/ body = Some "") /\
  (fst (VariantB.subscribe body w) = required
     <-> body = None \/ body = Some "") /\
  (fst (VariantB.check_access body w) = required
     <-> body = None \/ body = Some "") /\
  (body = None \/ body = Some "" ->
     VariantA.subscribe body w = (required, w) /\
     VariantB.subscribe body w = (required, w) /\
     VariantB.check_access body w = (required, w)).
Proof.
  cbv zeta.
  assert (Hback : body = None \/ body = Some "" ->
     VariantA.subscribe body w = (Ok (res 400 (JError "Email is required")), w) /\
     VariantB.subscribe body w = (Ok (res 400 (JError "Email is required")), w) /\
     VariantB.check_access body w
       = (Ok (res 400 (JError "Email is required")), w)).
  { intros [->| ->]; repeat split. }
  split; [|split; [|split]]; try exact Hback.
  - split; [|intros H; destruct (Hback H) as (E & _); now rewrite E].
    destruct body as [[|c e]|]; auto. intros H. exfalso. revert H.
    unfold VariantA.subscribe. rewrite nonempty_string.
    destruct w as [d o cs t tm n m db ml]. run_handler.
    destruct (db n); simpl; [|discriminate].
    destruct (existsb (has_email (String c e)) d); simpl; [discriminate|].
    destruct (ml m); simpl; discriminate.
  - split; [|intros H; destruct (Hback H) as (_ & E & _); now rewrite E].
    destruct body as [[|c e]|]; auto. intros H. exfalso. revert H.
    unfold VariantB.subscribe. rewrite nonempty_string.
    destruct w as [d o cs t tm n m db ml]. run_handler.
    destruct (db n); simpl; [|discriminate].
    destruct (existsb (has_email (String c e)) d); simpl; [discriminate|].
    destruct (ml m); simpl; discriminate.
  - split; [|intros H; destruct (Hback H) as (_ & _ & E); now rewrite E].
    destruct body as [[|c e]|]; auto. intros H. exfalso. revert H.
    unfold VariantB.check_access. rewrite nonempty_string.
    destruct w as [d o cs t tm n m db ml]. run_handler.
    destruct (db n); simpl; [|discriminate].
    destruct (db (S n)); simpl; [|discriminate].
    destruct (find (has_email (String c e)) d); simpl; discriminate.
Qed.

Lemma falsy_fields (f : Field) :
  Js.ToBoolean (read f) = false <->
  In f [Absent; JsonNull; JsonFalse; JsonZero; JsonString ""].
Proof.
  split.
  - destruct f as [| | | |[|c s]]; simpl; intros H; try discriminate; tauto.
  - intros [<-|[<-|[<-|[<-|[<-|[]]]]]]; reflexivity.
Qed.

(** X1. "Email is required" (400) is the answer of subscribe, in both
    servers, and of check-access exactly when the request has a body whose
    [email] is falsy: missing, [null], [false], 0 or the empty string.  Such
    a request calls neither the store nor the transport and leaves the world
    as it was.  A request whose body is [undefined] is not answered so: the
    handler throws before its test. *)
Theorem email_required_iff_falsy (body : Body) (w : World) :
  let required := Ok (res 400 (JError "Email is required")) in
  let falsy := exists f, body = Parsed f /\ Js.ToBoolean (read f) = false in
  (falsy <->
   exists f, body = Parsed f /\
             In f [Absent; JsonNull; JsonFalse; JsonZero; JsonString ""]) /\
  (fst (VariantA.post_subscribe body w) = required <-> falsy) /\
  (fst (VariantB.post_subscribe body w) = required <-> falsy) /\
  (fst (VariantB.post_check_access body w) = required <-> falsy) /\
  (falsy ->
     VariantA.post_subscribe body w = (required, w) /\
     VariantB.post_subscribe body w = (required, w) /\
     VariantB.post_check_access body w = (required, w)).
Proof.
  cbv zeta.
  assert (Hback :
     (exists f, body = Parsed f /\ Js.ToBoolean (read f) = false) ->
     VariantA.post_subscribe body w
       = (Ok (res 400 (JError "Email is required")), w) /\
     VariantB.post_subscribe body w
       = (Ok (res 400 (JError "Email is required")), w) /\
     VariantB.post_check_access body w
       = (Ok (res 400 (JError "Email is required")), w)).
  { intros (f & -> & Hf).
    unfold VariantA.post_subscribe, VariantB.post_subscribe,
      VariantB.post_check_access.
    rewrite Hf. repeat split. }
  assert (Hforth : forall (h : option string -> M Response),
     (forall body', fst (h body' w) = Ok (res 400 (JError "Email is required"))
                    -> body' = None \/ body' = Some "") ->
     fst (match body with
          | NoBody => throw destructure_undefined
          | Parsed f =>
              if negb (Js.ToBoolean (read f))
              then ret (res 400 (JError "Email is required"))
              else h (text f)
          end w) = Ok (res 400 (JError "Email is required")) ->
     exists f, body = Parsed f /\ Js.ToBoolean (read f) = false).
  { intros h Hh H. destruct body as [|f]; [discriminate|].
    exists f. split; [reflexivity|].
    destruct (Js.ToBoolean (read f)) eqn:Hf; [|reflexivity].
    simpl in H. destruct (Hh _ H) as [E|E];
      destruct f as [| | | |[|c s]]; simpl in *; discriminate. }
  split; [|split; [|split; [|split]]]; try exact Hback.
  - split; intros (f & E & H); exists f; (split; [exact E|]);
      now apply falsy_fields.
  - split; [|intros H; destruct (Hback H) as (E & _); now rewrite E].
    apply (Hforth VariantA.subscribe).
    intros b. now apply (email_required_absent_or_string b w).
  - split; [|intros H; destruct (Hback H) as (_ & E & _); now rewrite E].
    apply (Hforth VariantB.subscribe).
    intros b. now apply (email_required_absent_or_string b w).
  - split; [|intros H; destruct (Hback H) as (_ & _ & E); now rewrite E].
    apply (Hforth VariantB.check_access).
    intros b. now apply (email_required_absent_or_string b w).
Qed.

(** ** What a subscribe does to the world *)



(** X3. When the insert of a subscribe does not go through, because the
    address is already stored or because the store cannot be reached, no
    confirmation is sent (the transport is not even called), no timer is
    scheduled and no record changes; the answer is 400 "This email is
    already subscribed." when the store refused a duplicate and 500 when it
    could not be reached. *)
Theorem subscribe_without_insert_sends_nothing (w : World) (e : string) :
  e <> "" ->
  In e (emails w) \/ dbUp w (dbOps w) = false ->
  let answer :=
    if dbUp w (dbOps w)
    then Ok (res 400 (JError "This email is already subscribed."))
    else Ok (res 500 (JError "Server error")) in
  let wA := exec (VariantA.subscribe (Some e)) w in
  let wB := exec (VariantB.subscribe (Some e)) w in
  (fst (VariantA.subscribe (Some e) w) = answer /\
   docs wA = docs w /\ outbox wA = outbox w /\ mailOps wA = mailOps w /\
   timers wA = timers w) /\
  (fst (VariantB.subscribe (Some e) w) = answer /\
   docs wB = docs w /\ outbox wB = outbox w /\ mailOps wB = mailOps w /\
   timers wB = timers w).
Proof.
  intros He H. cbv zeta.
  unfold exec, VariantA.subscribe, VariantB.subscribe.
  rewrite (nonempty_truthy e He).
  assert (Hcase : dbUp w (dbOps w) = false \/
                  (dbUp w (dbOps w) = true /\
                   existsb (has_email e) (docs w) = true)).
  { destruct (dbUp w (dbOps w)) eqn:Hdb; [right|now left].
    split; [reflexivity|]. destruct H as [H|H]; [|discriminate].
    now apply existsb_has_email. }
  destruct w as [d o cs t tm n m db ml]. run_handler. simpl in *.
  destruct Hcase as [Hdb|[Hdb Hin]].
  - rewrite Hdb. simpl. repeat split.
  - rewrite Hdb, Hin. simpl. repeat split.
Qed.

Lemma subscribe_without_insert_witness :
  let w := fresh_process store_ab 0 (always false) (always true) in
  fst (VariantA.subscribe (Some "new@b.com") w)
    = Ok (res 500 (JError "Server error")) /\
  outbox (exec (VariantA.subscribe (Some "new@b.com")) w) = [].
Proof.
  destruct (subscribe_without_insert_sends_nothing
              (fresh_process store_ab 0 (always false) (always true))
              "new@b.com") as [(R & _ & O & _) _].
  - discriminate.
  - right. reflexivity.
  - split; [exact R | exact O].
Defined.

(** ** The two queries *)

(** X4. site-status, in both servers, and check-access only read: whatever
    the body and whatever the store and the transport do, they send no
    mail, schedule no timer and leave every record as it was. *)
Theorem queries_change_nothing (body : option string) (w : World) :
  let unchanged w' :=
    docs w' = docs w /\ outbox w' = outbox w /\ timers w' = timers w /\
    mailOps w' = mailOps w in
  unchanged (exec VariantA.site_status w) /\
  unchanged (exec VariantB.site_status w) /\
  unchanged (exec (VariantB.check_access body) w).
Proof.
  cbv zeta. unfold exec, VariantA.site_status, VariantB.site_status,
    VariantB.check_access.
  split; [|split].
  - destruct w as [d o cs t tm n m db ml]. run_handler. simpl.
    destruct (db n); simpl; repeat split.
  - destruct w as [d o cs t tm n m db ml]. run_handler. simpl.
    destruct (db n); simpl; repeat split.
  - destruct body as [[|c e]|]; [repeat split| |repeat split].
    rewrite nonempty_string.
    destruct w as [d o cs t tm n m db ml]. run_handler. simpl.
    destruct (db n); simpl; [|repeat split].
    destruct (db (S n)); simpl; [|repeat split].
    destruct (find (has_email (String c e)) d); simpl; repeat split.
Qed.

(** X5. Whoever is told by check-access that they have access is told, in
    the same answer, that the site is live. *)
Theorem access_implies_site_live (body : option string) (w : World)
    (siteLive : bool) :
  fst (VariantB.check_access body w) = Ok (res 200 (JAccess true siteLive)) ->
  siteLive = true.
Proof.
  unfold VariantB.check_access.
  destruct body as [[|c e0]|]; [discriminate| |discriminate].
  rewrite nonempty_string. set (e := String c e0).
  pose proof (active_filter_nonempty (docs w)) as Hiff.
  destruct w as [d o cs t tm n m db ml]. run_handler. simpl in *.
  destruct (db n); simpl; [|discriminate].
  destruct (db (S n)); simpl; [|discriminate].
  destruct (find (has_email e) d) as [s|] eqn:F; simpl; [|discriminate].
  intros [= Ha Hs]. rewrite <- Hs. apply Hiff.
  exists s. split; [now apply find_some in F|].
  now destruct (isComingSoon s).
Qed.

Lemma access_implies_site_live_witness :
  (0 <? countActive (fresh_process store_ab 0 (always true) (always true)))%nat
  = true.
Proof.
  apply (access_implies_site_live (Some "c@d.org")
           (fresh_process store_ab 0 (always true) (always true))).
  reflexivity.
Defined.

(** ** The site stays live *)

(** What site-status answers, in either server. *)
Lemma site_status_answer (w : World) :
  let answer :=
    if dbUp w (dbOps w)
    then Ok (res 200 (JSiteLive (0 <? countActive w)%nat))
    else Ok (res 500 (JError "Server error")) in
  fst (VariantA.site_status w) = answer /\
  fst (VariantB.site_status w) = answer.
Proof.
  cbv zeta. unfold VariantA.site_status, VariantB.site_status.
  destruct w as [d o cs t tm n m db ml]. run_handler. simpl.
  destruct (db n); simpl; split; reflexivity.
Qed.


#[local] Instance ActiveGrows_PreOrder : PreOrder ActiveGrows.
Proof.
  split; [intros w; red; lia | intros a b c; unfold ActiveGrows; lia].
Qed.

Lemma ActiveGrows_same w w' : docs w' = docs w -> ActiveGrows w w'.
Proof. intros H. unfold ActiveGrows, countActive. rewrite H. lia. Qed.

Lemma ActiveGrows_db_call : keeps ActiveGrows db_call.
Proof.
  intros w. unfold db_call. destruct (dbUp w (dbOps w)); now apply ActiveGrows_same.
Qed.

Lemma ActiveGrows_sendMail m : keeps ActiveGrows (sendMail m).
Proof.
  intros w. unfold sendMail.
  destruct (mailUp w (mailOps w)); now apply ActiveGrows_same.
Qed.

Lemma ActiveGrows_console_log msg : keeps ActiveGrows (console_log msg).
Proof. intros w. now apply ActiveGrows_same. Qed.

Lemma ActiveGrows_console_error msg e : keeps ActiveGrows (console_error msg e).
Proof. intros w. now apply ActiveGrows_same. Qed.

Lemma ActiveGrows_setTimeout a delay : keeps ActiveGrows (setTimeout a delay).
Proof. intros w. now apply ActiveGrows_same. Qed.

Lemma ActiveGrows_Date_now : keeps ActiveGrows Date_now.
Proof. intros w. now apply ActiveGrows_same. Qed.

Lemma ActiveGrows_find b : keeps ActiveGrows (Subscriber_find b).
Proof.
  apply keeps_bind; [exact _ | apply ActiveGrows_db_call | intros _].
  intros w. now apply ActiveGrows_same.
Qed.

Lemma ActiveGrows_findOne e : keeps ActiveGrows (Subscriber_findOne e).
Proof.
  apply keeps_bind; [exact _ | apply ActiveGrows_db_call | intros _].
  intros w. now apply ActiveGrows_same.
Qed.

Lemma ActiveGrows_find_countDocuments b :
  keeps ActiveGrows (Subscriber_find_countDocuments b).
Proof.
  apply keeps_bind; [exact _ | apply ActiveGrows_db_call | intros _].
  intros w. now apply ActiveGrows_same.
Qed.

Lemma ActiveGrows_save e : keeps ActiveGrows (Subscriber_save e).
Proof.
  apply keeps_bind; [exact _ | apply ActiveGrows_db_call | intros _].
  intros w. simpl. destruct (existsb (has_email e) (docs w)); simpl.
  - now apply ActiveGrows_same.
  - unfold ActiveGrows, countActive. simpl.
    rewrite filter_app, length_app. simpl. lia.
Qed.

Lemma active_update_first e u d :
  deactivating u ->
  (length (filter (fun s => Bool.eqb (isComingSoon s) false) d)
   <= length (filter (fun s => Bool.eqb (isComingSoon s) false)
                     (update_first e u d)))%nat.
Proof.
  intros Hu. induction d as [|s d IH]; simpl; [lia|].
  destruct (has_email e s); simpl.
  - rewrite Hu. simpl. destruct (isComingSoon s); simpl; lia.
  - destruct (isComingSoon s); simpl; lia.
Qed.

Lemma ActiveGrows_findOneAndUpdate e u :
  deactivating u -> keeps ActiveGrows (Subscriber_findOneAndUpdate e u).
Proof.
  intros Hu.
  apply keeps_bind; [exact _ | apply ActiveGrows_db_call | intros _].
  intros w. simpl. unfold ActiveGrows, countActive. simpl.
  now apply active_update_first.
Qed.

Create HintDb active_grows.

#[local] Hint Resolve ActiveGrows_db_call ActiveGrows_sendMail
  ActiveGrows_console_log ActiveGrows_console_error ActiveGrows_setTimeout
  ActiveGrows_Date_now ActiveGrows_find ActiveGrows_findOne
  ActiveGrows_find_countDocuments ActiveGrows_save deactivating_A
  deactivating_B ActiveGrows_findOneAndUpdate : active_grows.

Lemma ActiveGrows_A_step ev w : ActiveGrows w (VariantA.step ev w).
Proof.
  destruct ev as [ms|body| |i]; simpl.
  - now apply ActiveGrows_same.
  - revert w. change (keeps ActiveGrows (VariantA.subscribe body)).
    unfold VariantA.subscribe. walk_with ltac:(auto with active_grows).
  - revert w. change (keeps ActiveGrows VariantA.site_status).
    unfold VariantA.site_status. walk_with ltac:(auto with active_grows).
  - unfold VariantA.fire. destruct (nth_error (timers w) i); [|reflexivity].
    destruct (due t <=? now w); [|reflexivity].
    transitivity (with_timers (remove_nth i (timers w)) w);
      [now apply ActiveGrows_same|].
    generalize (with_timers (remove_nth i (timers w)) w).
    change (keeps ActiveGrows VariantA.sendLiveNotificationEmails).
    unfold VariantA.sendLiveNotificationEmails.
    walk_with ltac:(auto with active_grows).
Qed.

Lemma ActiveGrows_B_step ev w : ActiveGrows w (VariantB.step ev w).
Proof.
  destruct ev as [ms|body|body|body| |i]; simpl.
  - now apply ActiveGrows_same.
  - revert w. change (keeps ActiveGrows (VariantB.subscribe body)).
    unfold VariantB.subscribe. walk_with ltac:(auto with active_grows).
  - unfold exec. rewrite unsubscribe_throws. now apply ActiveGrows_same.
  - revert w. change (keeps ActiveGrows (VariantB.check_access body)).
    unfold VariantB.check_access. walk_with ltac:(auto with active_grows).
  - revert w. change (keeps ActiveGrows VariantB.site_status).
    unfold VariantB.site_status. walk_with ltac:(auto with active_grows).
  - unfold VariantB.fire. destruct (nth_error (timers w) i); [|reflexivity].
    destruct (due t <=? now w); [|reflexivity].
    transitivity (with_timers (remove_nth i (timers w)) w);
      [now apply ActiveGrows_same|].
    generalize (with_timers (remove_nth i (timers w)) w).
    change (keeps ActiveGrows
              (VariantB.sendLiveNotificationEmails (VariantB.first_arg (args t)))).
    unfold VariantB.sendLiveNotificationEmails, VariantB.notify.
    walk_with ltac:(auto with active_grows).
Qed.

(** X6. Along any run of either server the number of active subscribers
    never goes down; so once site-status has answered [siteLive: true],
    every later site-status that reaches the store answers [siteLive: true]
    as well. *)
Theorem site_stays_live (w : World) :
  (forall evs, (countActive w <= countActive (VariantA.run evs w))%nat) /\
  (forall evs, (countActive w <= countActive (VariantB.run evs w))%nat) /\
  (forall evs,
     let w' := VariantA.run evs w in
     fst (VariantA.site_status w) = Ok (res 200 (JSiteLive true)) ->
     dbUp w' (dbOps w') = true ->
     fst (VariantA.site_status w') = Ok (res 200 (JSiteLive true))) /\
  (forall evs,
     let w' := VariantB.run evs w in
     fst (VariantB.site_status w) = Ok (res 200 (JSiteLive true)) ->
     dbUp w' (dbOps w') = true ->
     fst (VariantB.site_status w') = Ok (res 200 (JSiteLive true))).
Proof.
  assert (HA : forall evs, (countActive w <= countActive (VariantA.run evs w))%nat).
  { intros evs.
    exact (keeps_run ActiveGrows VariantA.step evs ActiveGrows_A_step w). }
  assert (HB : forall evs, (countActive w <= countActive (VariantB.run evs w))%nat).
  { intros evs.
    exact (keeps_run ActiveGrows VariantB.step evs ActiveGrows_B_step w). }
  assert (Hpos : forall v,
            (fst (VariantA.site_status v) = Ok (res 200 (JSiteLive true)) \/
             fst (VariantB.site_status v) = Ok (res 200 (JSiteLive true))) ->
            (0 < countActive v)%nat).
  { intros v Hlive. destruct (site_status_answer v) as [EA EB].
    rewrite EA, EB in Hlive. destruct (dbUp v (dbOps v));
      [|destruct Hlive; discriminate].
    apply Nat.ltb_lt. destruct Hlive as [[= H]|[= H]]; exact H. }
  split; [exact HA|]. split; [exact HB|]. split; intros evs w' Hlive Hdb.
  - destruct (site_status_answer w') as [EA _].
    rewrite EA, Hdb. do 3 f_equal. apply Nat.ltb_lt.
    specialize (HA evs). specialize (Hpos w (or_introl Hlive)).
    fold w' in HA. lia.
  - destruct (site_status_answer w') as [_ EB].
    rewrite EB, Hdb. do 3 f_equal. apply Nat.ltb_lt.
    specialize (HB evs). specialize (Hpos w (or_intror Hlive)).
    fold w' in HB. lia.
Qed.

Lemma site_stays_live_witness :
  let w := fresh_process store_ab 0 (always true) (always true) in
  fst (VariantB.site_status
         (VariantB.run [VariantB.PostSubscribe (Some "x@y.net");
                        VariantB.Elapse 5000; VariantB.TimerFires 0] w))
    = Ok (res 200 (JSiteLive true)).
Proof.
  destruct (site_stays_live
              (fresh_process store_ab 0 (always true) (always true)))
    as (_ & _ & _ & H).
  apply (H [VariantB.PostSubscribe (Some "x@y.net");
            VariantB.Elapse 5000; VariantB.TimerFires 0]); reflexivity.
Defined.

(** ** Witnesses for the lifecycle lemmas *)

Lemma active_is_terminal_witness :
  flag (VariantB.run [VariantB.PostSubscribe (Some "c@d.org");
                      VariantB.PostUnsubscribe (Some "c@d.org");
                      VariantB.Elapse 9000; VariantB.TimerFires 0]
          (fresh_process store_ab 0 (always true) (always true)))
       "c@d.org" = Some false.
Proof.
  destruct (active_is_terminal
              (fresh_process store_ab 0 (always true) (always true)) "c@d.org")
    as [_ H]; [reflexivity | apply H].
Defined.

Lemma flip_needs_live_notification_witness :
  let w := fresh_process store_ab 0 (always true) (always true) in
  let evs := [VariantA.Elapse 20000; VariantA.TimerFires 0] in
  (live_count "a@b.com" (outbox (VariantA.boot store_ab 0 (always true) (always true)))
   < live_count "a@b.com"
       (outbox (VariantA.run evs
                  (VariantA.boot store_ab 0 (always true) (always true)))))%nat.
Proof.
  destruct (flip_needs_live_notification
              (VariantA.boot store_ab 0 (always true) (always true)) "a@b.com")
    as [H _]; [reflexivity|].
  apply H. reflexivity.
Defined.

(** ** Addresses *)

(** X9. Along any run of either server no stored address disappears or
    moves (new ones are appended after the old ones), and addresses that
    were unique stay unique. *)
Theorem addresses_stay_stored_and_unique (w : World) :
  NoDup (emails w) ->
  (forall evs,
     NoDup (emails (VariantA.run evs w)) /\
     exists l, emails (VariantA.run evs w) = (emails w ++ l)%list) /\
  (forall evs,
     NoDup (emails (VariantB.run evs w)) /\
     exists l, emails (VariantB.run evs w) = (emails w ++ l)%list).
Proof.
  intros Hnd. split; intros evs.
  - destruct (Evolves_A_run evs w) as (E & N & _). auto.
  - destruct (Evolves_B_run evs w) as (E & N & _). auto.
Qed.

Lemma addresses_stay_stored_and_unique_witness :
  NoDup (emails (VariantB.run [VariantB.PostSubscribe (Some "a@b.com");
                               VariantB.PostUnsubscribe (Some "a@b.com");
                               VariantB.PostSubscribe (Some "x@y.net")]
                   (fresh_process store_ab 0 (always true) (always true)))).
Proof.
  destruct (addresses_stay_stored_and_unique
              (fresh_process store_ab 0 (always true) (always true)))
    as [_ H].
  - repeat constructor; simpl; intuition discriminate.
  - apply H.
Defined.

(** ** A broadcast in which everything goes through *)




Lemma nobody_pending d :
  Forall (fun s => isComingSoon s = false) d -> filter awaiting d = [].
Proof.
  induction 1 as [|s d Hs Hd IH]; simpl; [reflexivity|].
  unfold awaiting at 1. now rewrite Hs.
Qed.




(** ** A broadcast with nothing to do *)



(** ** The time test of the second server *)

(** X12. When the argument of the broadcast of the second server is, or
    reads as, a whole number of milliseconds that lies more than
    [FOLLOW_UP_TIME_LIMIT] before the clock, the broadcast sends no mail and
    changes no record, whatever the store holds.  The clock and the start
    time are whole numbers a double holds exactly, so that the difference
    the code rounds passes the test of line 97 as the exact one does. *)
Theorem broadcast_abandoned_past_the_limit
    (w : World) (startTime : Js.Value) (q : Q) (t0 : Z) :
  Js.ToNumber startTime = Js.Finite q ->
  q == inject_Z t0 ->
  Js.isSafeInteger (now w) ->
  Js.isSafeInteger t0 ->
  now w - t0 > VariantB.FOLLOW_UP_TIME_LIMIT ->
  let w' := exec (VariantB.sendLiveNotificationEmails startTime) w in
  docs w' = docs w /\ outbox w' = outbox w /\ mailOps w' = mailOps w /\
  timers w' = timers w.
Proof.
  intros Hn Hq _ _ Hlate. cbv zeta.
  assert (Hgt : Js.gt (Js.sub (Js.of_ms (now w)) (Js.ToNumber startTime))
                      (Js.of_ms VariantB.FOLLOW_UP_TIME_LIMIT) = true).
  { rewrite Hn. unfold Js.gt, Js.sub, Js.of_ms.
    destruct (Qle_bool (inject_Z (now w) - q)
                       (inject_Z VariantB.FOLLOW_UP_TIME_LIMIT)) eqn:E;
      [|reflexivity].
    exfalso. apply Qle_bool_iff in E. rewrite Hq in E.
    unfold VariantB.FOLLOW_UP_TIME_LIMIT in *.
    unfold Qle, Qminus, Qplus, Qopp, inject_Z in E. simpl in E. lia. }
  unfold exec, VariantB.sendLiveNotificationEmails.
  cbv [try_catch bind Subscriber_find db_call Date_now].
  destruct (dbUp w (dbOps w)).
  - fold (answered w). change (now (answered w)) with (now w).
    rewrite Hgt. simpl. repeat split.
  - simpl. repeat split.
Qed.

Lemma broadcast_abandoned_witness :
  let w := fresh_process store_abc 6001 (always true) (always true) in
  outbox (exec (VariantB.sendLiveNotificationEmails (Js.Str " 1000.0 ")) w)
    = [] /\
  docs (exec (VariantB.sendLiveNotificationEmails (Js.Str " 1000.0 ")) w)
    = store_abc.
Proof.
  intros w.
  destruct (broadcast_abandoned_past_the_limit w (Js.Str " 1000.0 ") _ 1000
              eq_refl) as (D & O & _).
  - reflexivity.
  - unfold Js.isSafeInteger, Js.MAX_SAFE_INTEGER. simpl. lia.
  - unfold Js.isSafeInteger, Js.MAX_SAFE_INTEGER. lia.
  - reflexivity.
  - split; [exact O | exact D].
Defined.

(** ** A status update that fails *)

(** X13. When the transport accepts the mail of the first pending
    subscriber and the store then fails on the status update, the broadcast
    stops: that subscriber has been sent the live-notification and is still
    awaiting launch, like everybody else, so the next broadcast will mail
    the same subscriber again. *)
Theorem failed_update_leaves_notified_subscriber_awaiting
    (w : World) (s : Subscriber) (post : list Subscriber)
    (startTime : Js.Value) :
  filter awaiting (docs w) = s :: post ->
  dbUp w (dbOps w) = true ->
  dbUp w (S (dbOps w)) = false ->
  mailUp w (mailOps w) = true ->
  Js.gt (Js.sub (Js.of_ms (now w)) (Js.ToNumber startTime))
        (Js.of_ms VariantB.FOLLOW_UP_TIME_LIMIT) = false ->
  let wA := exec VariantA.sendLiveNotificationEmails w in
  let wB := exec (VariantB.sendLiveNotificationEmails startTime) w in
  (outbox wA = (outbox w ++ [liveNotification (email s)])%list /\
   docs wA = docs w /\ mailOps wA = S (mailOps w)) /\
  (outbox wB = (outbox w ++ [liveNotification (email s)])%list /\
   docs wB = docs w /\ mailOps wB = S (mailOps w)).
Proof.
  intros Hf H0 H1 Hm Hgt. cbv zeta. unfold exec.
  rewrite (A_pass_run w H0), (B_pass_run w startTime H0 Hgt), Hf.
  simpl for_of. unfold bind.
  rewrite !(send_and_mark_db_down _ s (answered w) Hm H1).
  simpl. repeat split.
Qed.

Lemma failed_update_witness :
  let w := fresh_process store_abc 0 (fun n => Nat.eqb n 0) (always true) in
  outbox (exec VariantA.sendLiveNotificationEmails w)
    = [liveNotification "a@b.com"] /\
  docs (exec VariantA.sendLiveNotificationEmails w) = store_abc.
Proof.
  intros w. subst w.
  destruct (failed_update_leaves_notified_subscriber_awaiting
              (fresh_process store_abc 0 (fun n => Nat.eqb n 0) (always true))
              (mkSubscriber "a@b.com" true)
              [mkSubscriber "c@d.org" true; mkSubscriber "e@f.net" true]
              Js.Undefined) as [(O & D & _) _]; try reflexivity.
  split; [exact O | exact D].
Defined.

(** ** Addresses with an at sign are not numbers *)

Lemma digit_val_at (base : Z) : Js.digit_val base at_sign = None.
Proof. reflexivity. Qed.

Lemma read_digits_keeps_at base l : forall acc n v m rest,
  In at_sign l ->
  Js.read_digits base l acc n = (v, m, rest) ->
  In at_sign rest.
Proof.
  induction l as [|c l IH]; intros acc n v m rest Hin H; simpl in *.
  - destruct Hin.
  - destruct (Js.digit_val base c) eqn:E.
    + destruct Hin as [->|Hin]; [now rewrite digit_val_at in E|].
      eapply IH; eassumption.
    + injection H as _ _ <-. exact Hin.
Qed.

Lemma all_digits_no_at base l v :
  Js.all_digits base l = Some v -> ~ In at_sign l.
Proof.
  unfold Js.all_digits. intros H Hin.
  destruct (Js.read_digits base l 0 0%nat) as [[v' m] rest] eqn:E.
  pose proof (read_digits_keeps_at _ _ _ _ _ _ _ Hin E) as Hr.
  destruct m; [discriminate|]. destruct rest; [destruct Hr | discriminate].
Qed.

Lemma read_sign_keeps_at l :
  In at_sign l -> In at_sign (snd (Js.read_sign l)).
Proof.
  destruct l as [|c l]; [intros []|].
  intros Hin. unfold Js.read_sign.
  destruct (Ascii.eqb_spec c "+"%char) as [->|Hp].
  - simpl. destruct Hin as [H|H]; [discriminate | exact H].
  - destruct (Ascii.eqb_spec c "-"%char) as [->|Hm].
    + simpl. destruct Hin as [H|H]; [discriminate | exact H].
    + destruct c as [[] [] [] [] [] [] [] []]; simpl; try exact Hin;
        congruence.
Qed.

Lemma read_exponent_no_at l v :
  Js.read_exponent l = Some v -> ~ In at_sign l.
Proof.
  destruct l as [|c l]; [intros _ []|].
  unfold Js.read_exponent.
  destruct (Ascii.eqb c "e" || Ascii.eqb c "E")%bool eqn:Ec; [|discriminate].
  intros H [Hc|Hin].
  - subst c. discriminate.
  - pose proof (read_sign_keeps_at l Hin) as Hs.
    destruct (Js.read_sign l) as [neg l2]. simpl in Hs.
    destruct (Js.all_digits 10 l2) eqn:E; [|discriminate].
    exact (all_digits_no_at _ _ _ E Hs).
Qed.

Lemma read_unsigned_decimal_no_at l n :
  Js.read_unsigned_decimal l = Some n -> ~ In at_sign l.
Proof.
  unfold Js.read_unsigned_decimal. intros H Hin.
  destruct (String.eqb_spec (string_of_list_ascii l) "Infinity") as [E|_].
  - assert (El : l = list_ascii_of_string "Infinity").
    { rewrite <- E. now rewrite list_ascii_of_string_of_list_ascii. }
    subst l. simpl in Hin. unfold at_sign in Hin.
    repeat (destruct Hin as [Hin|Hin]; [discriminate|]). exact Hin.
  - destruct (Js.read_digits 10 l 0 0%nat) as [[i ni] r1] eqn:E1.
    pose proof (read_digits_keeps_at _ _ _ _ _ _ _ Hin E1) as H1.
    assert (Hr2 : forall f nf r2,
              match r1 with
              | "."%char :: r => Js.read_digits 10 r 0 0%nat
              | _ => (0, 0%nat, r1)
              end = (f, nf, r2) -> In at_sign r2).
    { intros f nf r2 E2. destruct r1 as [|c r]; [destruct H1|].
      destruct (Ascii.eqb_spec c "."%char) as [->|Hc].
      - destruct H1 as [Habs|H1]; [discriminate|].
        exact (read_digits_keeps_at _ _ _ _ _ _ _ H1 E2).
      - assert (E3 : (0, 0%nat, c :: r) = (f, nf, r2)).
        { rewrite <- E2. clear -Hc.
          destruct c as [[] [] [] [] [] [] [] []]; try reflexivity.
          now elim Hc. }
        injection E3 as _ _ <-. exact H1. }
    destruct (match r1 with
              | "."%char :: r => Js.read_digits 10 r 0 0%nat
              | _ => (0, 0%nat, r1)
              end) as [[f nf] r2] eqn:E2.
    specialize (Hr2 f nf r2 eq_refl).
    destruct (ni + nf)%nat; [discriminate|].
    destruct (Js.read_exponent r2) eqn:E3; [|discriminate].
    exact (read_exponent_no_at _ _ E3 Hr2).
Qed.

Lemma trim_left_keeps_at l : In at_sign l -> In at_sign (Js.trim_left l).
Proof.
  induction l as [|c l IH]; [intros []|].
  intros Hin. simpl. destruct (Js.is_ws c) eqn:E; [|exact Hin].
  destruct Hin as [->|Hin]; [discriminate | now apply IH].
Qed.

Lemma trim_keeps_at l : In at_sign l -> In at_sign (Js.trim l).
Proof.
  intros H. unfold Js.trim. apply in_rev. rewrite rev_involutive.
  apply trim_left_keeps_at. apply -> in_rev. now apply trim_left_keeps_at.
Qed.

(** A string that holds an at sign is not the text of a number. *)
Lemma StringToNumber_at (s : string) :
  In at_sign (list_ascii_of_string s) -> Js.StringToNumber s = Js.NaN.
Proof.
  intros Hin. apply trim_keeps_at in Hin. unfold Js.StringToNumber.
  destruct (Js.trim (list_ascii_of_string s)) as [|c l]; [destruct Hin|].
  assert (Hdec : forall l', In at_sign l' ->
            match Js.read_unsigned_decimal l' with
            | Some n => n
            | None => Js.NaN
            end = Js.NaN).
  { intros l' H. destruct (Js.read_unsigned_decimal l') eqn:E; [|reflexivity].
    exfalso. exact (read_unsigned_decimal_no_at _ _ E H). }
  assert (H3 : (let (neg, r) := Js.read_sign (c :: l) in
                match Js.read_unsigned_decimal r with
                | Some n => if neg then Js.negate n else n
                | None => Js.NaN
                end) = Js.NaN).
  { pose proof (read_sign_keeps_at (c :: l) Hin) as H.
    destruct (Js.read_sign (c :: l)) as [neg r]. simpl in H.
    destruct (Js.read_unsigned_decimal r) eqn:E; [|reflexivity].
    exfalso. exact (read_unsigned_decimal_no_at _ _ E H). }
  destruct (Ascii.eqb_spec c "0"%char) as [->|Hc].
  - destruct l as [|x r]; [exact H3|].
    cbv iota beta.
    assert (Hr : x <> at_sign -> In at_sign r).
    { intros Hx. destruct Hin as [H|[H|H]]; [discriminate| |exact H].
      now elim Hx. }
    destruct (Ascii.eqb x "x" || Ascii.eqb x "X")%bool eqn:E1.
    { destruct (Js.all_digits 16 r) eqn:E; [|reflexivity].
      exfalso. apply (all_digits_no_at _ _ _ E). apply Hr.
      intros ->. discriminate. }
    destruct (Ascii.eqb x "o" || Ascii.eqb x "O")%bool eqn:E2.
    { destruct (Js.all_digits 8 r) eqn:E; [|reflexivity].
      exfalso. apply (all_digits_no_at _ _ _ E). apply Hr.
      intros ->. discriminate. }
    destruct (Ascii.eqb x "b" || Ascii.eqb x "B")%bool eqn:E3.
    { destruct (Js.all_digits 2 r) eqn:E; [|reflexivity].
      exfalso. apply (all_digits_no_at _ _ _ E). apply Hr.
      intros ->. discriminate. }
    exact (Hdec _ Hin).
  - destruct c as [[] [] [] [] [] [] [] []]; try exact H3.
    now elim Hc.
Qed.

Lemma for_of_agree {A} (l : list A) (f g : A -> M unit) :
  (forall x w, f x w = g x w) -> forall w, for_of l f w = for_of l g w.
Proof.
  intros H. induction l as [|x l IH]; intros w; simpl; [reflexivity|].
  unfold bind. rewrite H. destruct (g x w) as [[[]|e] w1]; [apply IH|reflexivity].
Qed.

Lemma update_first_B_A e d : update_first e update_B d = update_first e update_A d.
Proof.
  induction d as [|s d IH]; simpl; [reflexivity|].
  destruct (has_email e s); [reflexivity | now rewrite IH].
Qed.

Lemma notify_is_send_and_mark_A x w :
  VariantB.notify x w = send_and_mark update_A x w.
Proof.
  rewrite notify_always_sends.
  cbv [send_and_mark bind sendMail console_log Subscriber_findOneAndUpdate
       db_call with_docs].
  destruct (mailUp w (mailOps w)); [|reflexivity]. simpl.
  destruct (dbUp w (dbOps w)); [|reflexivity].
  now rewrite update_first_B_A.
Qed.

(** X14. For the address of a subscriber that holds an at sign, the start
    time the second server is given is not a number: the time test never
    holds, however late the timer fires, and the broadcast of the second
    server does exactly what the broadcast of the first server does. *)
Theorem address_with_at_sign_ignores_the_clock (e : string) (w : World) :
  In at_sign (list_ascii_of_string e) ->
  Js.ToNumber (Js.Str e) = Js.NaN /\
  exec (VariantB.sendLiveNotificationEmails (Js.Str e)) w
    = exec VariantA.sendLiveNotificationEmails w.
Proof.
  intros Hat. pose proof (StringToNumber_at e Hat) as Hnan.
  split; [exact Hnan|].
  unfold exec. rewrite A_pass_unfold. unfold VariantB.sendLiveNotificationEmails.
  cbv [try_catch bind Subscriber_find db_call Date_now].
  destruct (dbUp w (dbOps w)); [|reflexivity].
  rewrite (elapsed_NaN _ _ (Js.Str e) Hnan).
  rewrite (for_of_agree _ VariantB.notify (send_and_mark update_A)
             notify_is_send_and_mark_A).
  reflexivity.
Qed.

Lemma address_with_at_sign_witness :
  let w := fresh_process store_abc 999999 (always true) (always true) in
  exec (VariantB.sendLiveNotificationEmails (Js.Str "a@b.com")) w
    = exec VariantA.sendLiveNotificationEmails w.
Proof.
  intros w.
  refine (proj2 (address_with_at_sign_ignores_the_clock "a@b.com" w _)).
  simpl. unfold at_sign. auto.
Defined.

(** ** Who is sent the live-notification *)

Lemma B_pass_outbox startTime w :
  exists m,
    outbox (exec (VariantB.sendLiveNotificationEmails startTime) w)
      = (outbox w ++ m)%list /\
    Forall (fun x => In (to x) (emails w)) m.
Proof.
  unfold exec, VariantB.sendLiveNotificationEmails.
  cbv [try_catch bind Subscriber_find db_call Date_now].
  destruct (dbUp w (dbOps w)).
  - fold (answered w). fold awaiting. destruct (Js.gt _ _).
    + simpl. exists []. now rewrite app_nil_r.
    + rewrite (for_of_agree _ VariantB.notify (send_and_mark update_A)
                 notify_is_send_and_mark_A).
      destruct (loop_outbox update_A (filter awaiting (docs (answered w)))
                  (answered w)) as (m & O & F).
      destruct (for_of _ _ _) as [[[]|e] w1]; simpl in *; rewrite O;
        exists m; (split; [reflexivity|]);
        (eapply Forall_impl; [|exact F]); intros y Hy;
        apply in_map_iff in Hy; destruct Hy as [s [Es Hs]];
        apply filter_In in Hs; rewrite <- Es; apply in_map; tauto.
  - simpl. exists []. now rewrite app_nil_r.
Qed.

Lemma OnlyStored_B_step ev w : KeepsOnlyStored w (VariantB.step ev w).
Proof.
  intros H. pose proof (Evolves_B_step ev w) as Ev.
  assert (Hquiet : Quiet w (VariantB.step ev w) ->
                   OnlyStored (VariantB.step ev w)).
  { intros (_ & (m & O & G)) x Hx Hs. rewrite O in Hx.
    apply in_app_or in Hx. destruct Hx as [Hx|Hx].
    - eapply Evolves_keeps_email; [exact Ev | now apply H].
    - rewrite Forall_forall in G. rewrite (G x Hx) in Hs. discriminate. }
  destruct ev as [ms|body|body|body| |i].
  - apply Hquiet. now apply Quiet_same.
  - apply Hquiet. apply Quiet_B_subscribe.
  - apply Hquiet. apply Quiet_B_unsubscribe.
  - apply Hquiet. apply Quiet_B_check_access.
  - apply Hquiet. apply Quiet_B_site_status.
  - clear Hquiet. simpl in *. unfold VariantB.fire in *.
    destruct (nth_error (timers w) i) as [t|]; [|exact H].
    destruct (due t <=? now w); [|exact H].
    destruct (B_pass_outbox (VariantB.first_arg (args t))
                (with_timers (remove_nth i (timers w)) w)) as (m & O & F).
    intros x Hx Hs. rewrite O in Hx. simpl in Hx.
    apply in_app_or in Hx.
    eapply Evolves_keeps_email; [exact Ev|].
    destruct Hx as [Hx|Hx]; [now apply H|].
    rewrite Forall_forall in F. exact (F x Hx).
Qed.

(** X15. In a process of either server, whatever happens, every
    live-notification the transport has accepted went to an address that is
    stored: a broadcast mails nobody who has not subscribed. *)
Theorem live_notifications_go_to_subscribers
    (d : list Subscriber) (t : Z) (db ml : nat -> bool) :
  (forall evs, OnlyStored (VariantA.run evs (VariantA.boot d t db ml))) /\
  (forall evs, OnlyStored (VariantB.run evs (fresh_process d t db ml))).
Proof.
  split; intros evs.
  - apply OnlyStored_A_run. intros m [].
  - apply (keeps_run KeepsOnlyStored VariantB.step evs OnlyStored_B_step).
    intros m [].
Qed.

(** ** Resuming a broadcast *)

Lemma run_task_is_the_pass_witness :
  let w := fresh_process store_abc 0 (always true) refuse_second in
  VariantB.run_task 7 (VariantB.Started (Js.Str "a@b.com")) w
  = exec (VariantB.sendLiveNotificationEmails (Js.Str "a@b.com")) w.
Proof.
  intros w. apply run_task_is_the_pass. simpl. lia.
Defined.

(** ** The timers of the second server *)

Lemma SameTimers_Date_now : keeps SameTimers Date_now.
Proof. intros w. reflexivity. Qed.

Lemma SameTimers_findOne e : keeps SameTimers (Subscriber_findOne e).
Proof.
  apply keeps_bind; [exact _ | apply SameTimers_db_call | intros _].
  intros w. reflexivity.
Qed.

Lemma SameTimers_find_countDocuments b :
  keeps SameTimers (Subscriber_find_countDocuments b).
Proof.
  apply keeps_bind; [exact _ | apply SameTimers_db_call | intros _].
  intros w. reflexivity.
Qed.

#[local] Hint Resolve SameTimers_Date_now SameTimers_findOne
  SameTimers_find_countDocuments : same_timers.

Lemma SameTimers_B_pass startTime :
  keeps SameTimers (VariantB.sendLiveNotificationEmails startTime).
Proof.
  unfold VariantB.sendLiveNotificationEmails, VariantB.notify.
  walk_with ltac:(auto with same_timers).
Qed.

Lemma SameTimers_B_check_access body :
  keeps SameTimers (VariantB.check_access body).
Proof. unfold VariantB.check_access. walk_with ltac:(auto with same_timers). Qed.

Lemma SameTimers_B_site_status : keeps SameTimers VariantB.site_status.
Proof. unfold VariantB.site_status. walk_with ltac:(auto with same_timers). Qed.

(** A subscribe of the second server adds at most one timer, and then one
    that carries the address it has just stored. *)
Lemma B_subscribe_timers body w :
  let w' := exec (VariantB.subscribe body) w in
  timers w' = timers w \/
  exists e, e <> "" /\ In e (emails w') /\
            timers w' =
              (timers w
               ++ [mkTimer (now w + VariantB.FOLLOW_UP_TIME_LIMIT) [Js.Str e]])%list.
Proof.
  cbv zeta. unfold exec, VariantB.subscribe.
  destruct body as [[|c e0]|]; [now left| |now left].
  rewrite nonempty_string. set (e := String c e0).
  destruct w as [d o cs t tm n m db ml]. run_handler. simpl.
  destruct (db n); simpl; [|now left].
  destruct (existsb (has_email e) d); simpl; [now left|].
  destruct (ml m); simpl; [|now left].
  right. exists e. split; [discriminate|]. split; [|reflexivity].
  unfold emails. simpl. rewrite map_app. apply in_or_app. right. now left.
Qed.

Lemma In_remove_nth {A} (x : A) l : forall i, In x (remove_nth i l) -> In x l.
Proof.
  unfold remove_nth. induction l as [|y l IH]; intros [|i] H; simpl in *;
    try contradiction.
  - now right.
  - destruct H as [H|H]; [now left | right; now apply (IH i)].
Qed.

Lemma TimersCarryStored_B_step ev w :
  TimersCarryStored w -> TimersCarryStored (VariantB.step ev w).
Proof.
  intros H. pose proof (Evolves_B_step ev w) as Ev.
  assert (Hold : forall t, In t (timers w) ->
            exists e, args t = [Js.Str e] /\ e <> "" /\
                      In e (emails (VariantB.step ev w))).
  { intros t Ht. destruct (H t Ht) as (e & A & N & I).
    exists e. repeat split; auto. eapply Evolves_keeps_email; eassumption. }
  assert (Hsame : timers (VariantB.step ev w) = timers w ->
                  TimersCarryStored (VariantB.step ev w)).
  { intros E t Ht. rewrite E in Ht. now apply Hold. }
  destruct ev as [ms|body|body|body| |i].
  - now apply Hsame.
  - destruct (B_subscribe_timers body w) as [E|(e & N & I & E)];
      [now apply Hsame|].
    intros t Ht. simpl in Ht. rewrite E in Ht. apply in_app_or in Ht.
    destruct Ht as [Ht|[<-|[]]]; [now apply Hold|].
    exists e. repeat split; auto.
  - apply Hsame. unfold VariantB.step, exec. now rewrite unsubscribe_throws.
  - apply Hsame. apply (SameTimers_B_check_access body w).
  - apply Hsame. apply (SameTimers_B_site_status w).
  - intros t Ht. apply Hold. revert Ht. simpl. unfold VariantB.fire.
    destruct (nth_error (timers w) i) as [t0|]; [|auto].
    destruct (due t0 <=? now w); [|auto].
    unfold exec.
    pose proof (SameTimers_B_pass (VariantB.first_arg (args t0))
                  (with_timers (remove_nth i (timers w)) w)) as E.
    red in E. rewrite E. simpl. apply In_remove_nth.
Qed.

(** X16. In a process of the second server every pending timer carries,
    as the argument its callback will pass to the broadcast, the non-empty
    address of a stored subscriber: no broadcast is ever started with a
    time. *)
Theorem timers_carry_stored_addresses
    (d : list Subscriber) (t : Z) (db ml : nat -> bool)
    (evs : list VariantB.Event) :
  TimersCarryStored (VariantB.run evs (fresh_process d t db ml)).
Proof.
  assert (H0 : TimersCarryStored (fresh_process d t db ml)) by (intros x []).
  revert H0. generalize (fresh_process d t db ml).
  induction evs as [|ev evs IH]; intros w Hw; [exact Hw|].
  apply (IH (VariantB.step ev w)). now apply TimersCarryStored_B_step.
Qed.

(** ** What escapes a handler *)

(** Inside its [try] no handler and no broadcast lets an exception escape:
    with [email] absent or a string, whatever the store and the transport
    do, subscribe answers 200, 400 or 500, site-status 200 or 500,
    check-access 200, 400 or 500, and a broadcast ends normally. *)
Lemma answers_inside_try (body : option string) (w : World)
    (startTime : Js.Value) :
  (exists r, fst (VariantA.subscribe body w) = Ok r /\
             (status r = 200 \/ status r = 400 \/ status r = 500)) /\
  (exists r, fst (VariantB.subscribe body w) = Ok r /\
             (status r = 200 \/ status r = 400 \/ status r = 500)) /\
  (exists r, fst (VariantA.site_status w) = Ok r /\
             (status r = 200 \/ status r = 500)) /\
  (exists r, fst (VariantB.site_status w) = Ok r /\
             (status r = 200 \/ status r = 500)) /\
  (exists r, fst (VariantB.check_access body w) = Ok r /\
             (status r = 200 \/ status r = 400 \/ status r = 500)) /\
  fst (VariantA.sendLiveNotificationEmails w) = Ok tt /\
  fst (VariantB.sendLiveNotificationEmails startTime w) = Ok tt.
Proof.
  repeat split.
  - unfold VariantA.subscribe.
    destruct body as [[|c e]|]; [eexists; split; [reflexivity|auto]|
                                 |eexists; split; [reflexivity|auto]].
    rewrite nonempty_string. destruct w as [d o cs t tm n m db ml].
    run_handler. simpl.
    destruct (db n); simpl; [|eexists; split; [reflexivity|auto]].
    destruct (existsb (has_email (String c e)) d); simpl;
      [eexists; split; [reflexivity|auto]|].
    destruct (ml m); simpl; eexists; split; try reflexivity; auto.
  - unfold VariantB.subscribe.
    destruct body as [[|c e]|]; [eexists; split; [reflexivity|auto]|
                                 |eexists; split; [reflexivity|auto]].
    rewrite nonempty_string. destruct w as [d o cs t tm n m db ml].
    run_handler. simpl.
    destruct (db n); simpl; [|eexists; split; [reflexivity|auto]].
    destruct (existsb (has_email (String c e)) d); simpl;
      [eexists; split; [reflexivity|auto]|].
    destruct (ml m); simpl; eexists; split; try reflexivity; auto.
  - destruct (site_status_answer w) as [E _]. rewrite E.
    destruct (dbUp w (dbOps w)); eexists; split; try reflexivity; auto.
  - destruct (site_status_answer w) as [_ E]. rewrite E.
    destruct (dbUp w (dbOps w)); eexists; split; try reflexivity; auto.
  - unfold VariantB.check_access.
    destruct body as [[|c e]|]; [eexists; split; [reflexivity|auto]|
                                 |eexists; split; [reflexivity|auto]].
    rewrite nonempty_string. destruct w as [d o cs t tm n m db ml].
    run_handler. simpl.
    destruct (db n); simpl; [|eexists; split; [reflexivity|auto]].
    destruct (db (S n)); simpl; [|eexists; split; [reflexivity|auto]].
    destruct (find (has_email (String c e)) d); simpl;
      eexists; split; try reflexivity; auto.
  - rewrite A_pass_unfold. unfold try_catch.
    destruct ((subscribers <- Subscriber_find true ;;
               for_of subscribers (send_and_mark update_A) ;;
               console_log "All follow-up emails sent.") w) as [[[]|e] w1];
      reflexivity.
  - unfold VariantB.sendLiveNotificationEmails, try_catch.
    match goal with
    | |- fst (match ?c with _ => _ end) = _ => destruct c as [[[]|e] w1]
    end; reflexivity.
Qed.

(** X17. A request that has a body is always answered: whatever its
    [email], the store and the transport do, subscribe answers 200, 400 or
    500, check-access 200, 400 or 500 and unsubscribe 500; site-status
    answers 200 or 500, and a broadcast ends normally.  The only exception
    that escapes a handler is the one of the line before its [try]: when
    [req.body] is [undefined], subscribe, check-access and unsubscribe throw
    a TypeError without having called [res], the store or the transport. *)
Theorem handlers_answer_unless_body_is_undefined (f : Field) (w : World)
    (startTime : Js.Value) :
  (exists r, fst (VariantA.post_subscribe (Parsed f) w) = Ok r /\
             (status r = 200 \/ status r = 400 \/ status r = 500)) /\
  (exists r, fst (VariantB.post_subscribe (Parsed f) w) = Ok r /\
             (status r = 200 \/ status r = 400 \/ status r = 500)) /\
  (exists r, fst (VariantB.post_check_access (Parsed f) w) = Ok r /\
             (status r = 200 \/ status r = 400 \/ status r = 500)) /\
  (exists r, fst (VariantB.post_unsubscribe (Parsed f) w) = Ok r /\
             status r = 500) /\
  (exists r, fst (VariantA.site_status w) = Ok r /\
             (status r = 200 \/ status r = 500)) /\
  (exists r, fst (VariantB.site_status w) = Ok r /\
             (status r = 200 \/ status r = 500)) /\
  fst (VariantA.sendLiveNotificationEmails w) = Ok tt /\
  fst (VariantB.sendLiveNotificationEmails startTime w) = Ok tt /\
  VariantA.post_subscribe NoBody w = (Throw destructure_undefined, w) /\
  VariantB.post_subscribe NoBody w = (Throw destructure_undefined, w) /\
  VariantB.post_check_access NoBody w = (Throw destructure_undefined, w) /\
  VariantB.post_unsubscribe NoBody w = (Throw destructure_undefined, w).
Proof.
  destruct (answers_inside_try (text f) w startTime)
    as (HA & HB & HsA & HsB & HC & HpA & HpB).
  assert (Hreq : exists r : Response,
            Ok (res 400 (JError "Email is required")) = Ok r /\
            (status r = 200 \/ status r = 400 \/ status r = 500)).
  { eexists. split; [reflexivity|]. auto. }
  unfold VariantA.post_subscribe, VariantB.post_subscribe,
    VariantB.post_check_access, VariantB.post_unsubscribe.
  repeat split; try assumption.
  - destruct (negb (Js.ToBoolean (read f))); [exact Hreq | exact HA].
  - destruct (negb (Js.ToBoolean (read f))); [exact Hreq | exact HB].
  - destruct (negb (Js.ToBoolean (read f))); [exact Hreq | exact HC].
  - rewrite unsubscribe_throws. eexists. split; reflexivity.
Qed.

(** ** Broadcasts that overlap keep what runs keep *)

Lemma preserves_next l : preserves (VariantB.next l).
Proof.
  destruct l as [|s l]; simpl.
  - pres.
  - apply preserves_ret.
Qed.

Lemma preserves_resume t : preserves (VariantB.resume t).
Proof.
  pose proof preserves_next.
  unfold VariantB.resume. destruct t; pres.
Qed.

Lemma Evolves_sys_step ev s :
  Evolves (VariantB.world s) (VariantB.world (VariantB.sys_step ev s)).
Proof.
  destruct ev as [ev|i|j]; simpl.
  - destruct ev as [ms|body|body|body| |i]; simpl.
    + apply Evolves_with_now.
    + apply preserves_B_subscribe.
    + apply preserves_B_unsubscribe.
    + apply preserves_B_check_access.
    + apply preserves_B_site_status.
    + apply Evolves_refl.
  - destruct (nth_error (timers (VariantB.world s)) i) as [t|];
      [|apply Evolves_refl].
    destruct (due t <=? now (VariantB.world s)); [|apply Evolves_refl].
    simpl. apply Evolves_with_timers.
  - destruct (nth_error (VariantB.tasks s) j) as [t|]; [|apply Evolves_refl].
    pose proof (preserves_resume t (VariantB.world s)) as H.
    destruct (VariantB.resume t (VariantB.world s)) as [[t'|e] w']; exact H.
Qed.

(** X18. Also when broadcasts of the second server overlap with each
    other and with requests, in any order, a subscriber that is active stays
    stored and active, no stored address disappears, and addresses that were
    unique stay unique. *)
Theorem overlapping_broadcasts_keep_the_store_sound
    (s : VariantB.Sys) (evs : list VariantB.SysEvent) :
  let w := VariantB.world s in
  let w' := VariantB.world (VariantB.sys_run evs s) in
  (forall e, flag w e = Some false -> flag w' e = Some false) /\
  (exists l, emails w' = (emails w ++ l)%list) /\
  (NoDup (emails w) -> NoDup (emails w')).
Proof.
  cbv zeta.
  assert (H : Evolves (VariantB.world s)
                      (VariantB.world (VariantB.sys_run evs s))).
  { revert s. induction evs as [|ev evs IH]; intros s; [apply Evolves_refl|].
    eapply Evolves_trans; [apply (Evolves_sys_step ev s)|].
    apply (IH (VariantB.sys_step ev s)). }
  destruct H as (E & N & F & _). auto.
Qed.

(** * Requests between the awaits of a broadcast *)

(** ** Replacing a task in the list *)


Lemma In_set_nth {A} (x y : A) l : forall j,
  In y (set_nth j x l) -> y = x \/ In y l.
Proof.
  induction l as [|z l IH]; intros [|j]; simpl; try tauto.
  - intros [H|H]; auto.
  - intros [H|H]; [auto|]. destruct (IH j H); auto.
Qed.

Lemma set_nth_same {A} (x : A) l : forall j,
  nth_error l j = Some x -> set_nth j x l = l.
Proof.
  induction l as [|z l IH]; intros [|j]; simpl; try discriminate.
  - now intros [= ->].
  - intros H. now rewrite IH.
Qed.

Lemma nth_error_set_nth_other {A} (x : A) l : forall j k,
  k <> j -> nth_error (set_nth j x l) k = nth_error l k.
Proof.
  induction l as [|z l IH]; intros [|j] [|k] H; simpl; try reflexivity.
  - now elim H.
  - apply IH. congruence.
Qed.

Lemma nth_set_nth {A} (x d : A) l : forall j t,
  nth_error l j = Some t -> nth j (set_nth j x l) d = x.
Proof.
  induction l as [|z l IH]; intros [|j] t; simpl; try discriminate.
  - reflexivity.
  - apply IH.
Qed.

Lemma nth_of_nth_error {A} (d : A) l : forall j t,
  nth_error l j = Some t -> nth j l d = t.
Proof.
  induction l as [|z l IH]; intros [|j] t; simpl; try discriminate.
  - now intros [= ->].
  - apply IH.
Qed.

Lemma nth_set_nth_other {A} (x d : A) l : forall j k,
  k <> j -> nth k (set_nth j x l) d = nth k l d.
Proof.
  induction l as [|z l IH]; intros [|j] [|k] H; simpl; try reflexivity.
  - now elim H.
  - apply IH. congruence.
Qed.

(** ** The broadcast of the first server, step by step *)

Lemma A_resume_Started w :
  VariantA.resume VariantA.Started w =
    if dbUp w (dbOps w)
    then VariantA.next (filter awaiting (docs w)) (answered w)
    else (Ok VariantA.Finished,
          snd (on_error MongoNetworkError (answered w))).
Proof.
  cbv [VariantA.resume try_catch bind Subscriber_find db_call].
  destruct (dbUp w (dbOps w)); [|reflexivity].
  fold (answered w). fold awaiting.
  change (docs (answered w)) with (docs w).
  now destruct (filter awaiting (docs w)).
Qed.

Lemma A_resume_Sending s rest w :
  VariantA.resume (VariantA.Sending s rest) w =
    if mailUp w (mailOps w)
    then (Ok (VariantA.Updating s rest), mailed s w)
    else (Ok VariantA.Finished,
          snd (on_error TransportError (snd (send_and_mark update_A s w)))).
Proof.
  destruct (mailUp w (mailOps w)) eqn:Hm.
  - cbv [VariantA.resume try_catch bind sendMail console_log ret mailed].
    rewrite Hm. reflexivity.
  - rewrite (send_and_mark_refused update_A s w Hm).
    cbv [VariantA.resume try_catch bind sendMail console_log ret].
    rewrite Hm. reflexivity.
Qed.

Lemma A_resume_Updating s rest w :
  VariantA.resume (VariantA.Updating s rest) w =
    match Subscriber_findOneAndUpdate (email s) update_A w with
    | (Ok _, w1) => VariantA.next rest w1
    | (Throw e, w1) => (Ok VariantA.Finished, snd (on_error e w1))
    end.
Proof.
  cbv [VariantA.resume try_catch bind]. fold update_A.
  destruct (Subscriber_findOneAndUpdate (email s) update_A w) as [[[]|e] w1].
  - now destruct rest.
  - reflexivity.
Qed.

Lemma A_resume_Finished w :
  VariantA.resume VariantA.Finished w = (Ok VariantA.Finished, w).
Proof. reflexivity. Qed.

Lemma A_run_task_Finished fuel w :
  VariantA.run_task fuel VariantA.Finished w = w.
Proof. now destruct fuel. Qed.

Lemma A_run_task_rest l : forall w fuel,
  (2 * length l <= fuel)%nat ->
  match VariantA.next l w with
  | (Ok t, w1) => VariantA.run_task fuel t w1
  | (Throw _, w1) => w1
  end
  = exec (try_catch (for_of l (send_and_mark update_A) ;;
                     console_log "All follow-up emails sent.") on_error) w.
Proof.
  induction l as [|s l IH]; intros w fuel Hf.
  - simpl. now rewrite A_run_task_Finished.
  - cbn [VariantA.next ret]. unfold exec. cbn [for_of].
    destruct fuel as [|[|fuel]]; simpl in Hf; try lia.
    assert (Hf' : (2 * length l <= fuel)%nat) by lia.
    cbn [VariantA.run_task]. rewrite A_resume_Sending.
    destruct (mailUp w (mailOps w)) eqn:Hm.
    + cbn [VariantA.run_task]. rewrite A_resume_Updating.
      unfold try_catch, bind at 1 2.
      rewrite (send_and_mark_mailed update_A s w Hm).
      destruct (Subscriber_findOneAndUpdate (email s) update_A (mailed s w))
        as [[[]|e] w1].
      * specialize (IH w1 fuel Hf'). unfold exec, try_catch in IH.
        destruct (VariantA.next l w1) as [[t|e] w2]; exact IH.
      * now rewrite A_run_task_Finished.
    + rewrite ?A_run_task_Finished.
      unfold try_catch, bind at 1 2.
      now rewrite (send_and_mark_refused update_A s w Hm).
Qed.

(** X20. The broadcast of the first server, resumed at each [await] with
    nothing in between, ends, after at most two resumptions for each stored record
    and one more, in the world [sendLiveNotificationEmails] ends in. *)
Lemma A_run_task_is_the_pass (w : World) (fuel : nat) :
  (2 * length (docs w) + 1 <= fuel)%nat ->
  VariantA.run_task fuel VariantA.Started w
  = exec VariantA.sendLiveNotificationEmails w.
Proof.
  intros Hf. destruct fuel as [|fuel]; [lia|].
  cbn [VariantA.run_task]. rewrite A_resume_Started.
  unfold exec. rewrite A_pass_unfold.
  cbv [try_catch bind Subscriber_find db_call].
  destruct (dbUp w (dbOps w)).
  - fold (answered w). fold awaiting.
    change (docs (answered w)) with (docs w).
    assert (Hl : (2 * length (filter awaiting (docs w)) <= fuel)%nat).
    { pose proof (filter_length_le awaiting (docs w)). lia. }
    pose proof (A_run_task_rest (filter awaiting (docs w)) (answered w) fuel Hl)
      as H.
    unfold exec, try_catch, bind in H.
    destruct (VariantA.next (filter awaiting (docs w)) (answered w))
      as [[t|e] w1]; rewrite H;
      destruct (for_of _ _ _) as [[[]|e'] w2]; reflexivity.
  - now rewrite A_run_task_Finished.
Qed.

Lemma A_run_task_is_the_pass_witness :
  let w := fresh_process store_abc 0 (always true) refuse_second in
  VariantA.run_task 7 VariantA.Started w
  = exec VariantA.sendLiveNotificationEmails w.
Proof.
  intros w. apply A_run_task_is_the_pass. simpl. lia.
Defined.

(** ** What a step of the broadcast of the first server touches *)


Lemma preserves_A_resume t : preserves (VariantA.resume t).
Proof. unfold VariantA.resume, VariantA.next. destruct t; pres. Qed.

(** A resumed broadcast goes on, never back to its query; it mails the
    subscriber it holds first and marks nobody else. *)
Lemma A_resume_effect t w :
  let w' := exec (VariantA.resume t) w in
  exists t',
    VariantA.resume t w = (Ok t', w') /\
    t' <> VariantA.Started /\
    (t = VariantA.Started -> incl (remaining t') (docs w)) /\
    (t <> VariantA.Started -> incl (remaining t') (remaining t)) /\
    (outbox w' = outbox w \/
     exists x rest, t = VariantA.Sending x rest /\
       outbox w' = (outbox w ++ [liveNotification (email x)])%list) /\
    (docs w' = docs w \/
     exists x rest, t = VariantA.Updating x rest /\
       docs w' = update_first (email x) update_A (docs w)).
Proof.
  cbv zeta. unfold exec. destruct t as [|x rest|x rest|].
  - rewrite A_resume_Started. destruct (dbUp w (dbOps w)).
    + destruct (filter awaiting (docs w)) as [|y r] eqn:F; simpl.
      * eexists. repeat split; try discriminate; auto using incl_nil_l.
      * eexists. repeat split; try discriminate; auto.
        -- intros _. simpl. rewrite <- F. apply incl_filter.
        -- intros H. now elim H.
    + simpl. eexists. repeat split; try discriminate; auto using incl_nil_l.
  - rewrite A_resume_Sending. destruct (mailUp w (mailOps w)) eqn:Hm.
    + simpl. eexists. repeat split; try discriminate; auto.
      * intros _. apply incl_refl.
      * right. eauto.
    + rewrite (send_and_mark_refused update_A x w Hm). simpl.
      eexists. repeat split; try discriminate; auto using incl_nil_l.
  - rewrite A_resume_Updating.
    cbv [Subscriber_findOneAndUpdate bind db_call].
    destruct (dbUp w (dbOps w)).
    + destruct rest as [|y r]; simpl.
      * eexists. repeat split; try discriminate; auto using incl_nil_l.
        right. eauto.
      * eexists. repeat split; try discriminate; auto.
        -- intros _. apply incl_tl, incl_refl.
        -- right. eauto.
    + simpl. eexists. repeat split; try discriminate; auto using incl_nil_l.
  - simpl. eexists. repeat split; try discriminate; auto using incl_nil_l.
Qed.

Lemma Evolves_A_sys_step ev s :
  Evolves (VariantA.world s) (VariantA.world (VariantA.sys_step ev s)).
Proof.
  destruct ev as [ev|i|j]; simpl.
  - destruct ev as [ms|body| |i]; simpl.
    + apply Evolves_with_now.
    + apply preserves_A_subscribe.
    + apply preserves_A_site_status.
    + apply Evolves_refl.
  - destruct (nth_error (timers (VariantA.world s)) i) as [t|];
      [|apply Evolves_refl].
    destruct (due t <=? now (VariantA.world s)); [|apply Evolves_refl].
    simpl. apply Evolves_with_timers.
  - destruct (nth_error (VariantA.tasks s) j) as [t|]; [|apply Evolves_refl].
    pose proof (preserves_A_resume t (VariantA.world s)) as H.
    destruct (VariantA.resume t (VariantA.world s)) as [[t'|e] w']; exact H.
Qed.

Lemma Evolves_A_sys_run evs : forall s,
  Evolves (VariantA.world s) (VariantA.world (VariantA.sys_run evs s)).
Proof.
  induction evs as [|ev evs IH]; intros s; [apply Evolves_refl|].
  eapply Evolves_trans; [apply (Evolves_A_sys_step ev s)|].
  apply (IH (VariantA.sys_step ev s)).
Qed.



(** ** Who a broadcast of the first server can reach *)

Lemma HoldsStored_A_sys_step ev s :
  HoldsStored s -> HoldsStored (VariantA.sys_step ev s).
Proof.
  intros [Ho Ht]. pose proof (Evolves_A_sys_step ev s) as Ev.
  assert (Hold : forall t, In t (VariantA.tasks s) ->
            incl (map email (remaining t))
                 (emails (VariantA.world (VariantA.sys_step ev s)))).
  { intros t Hin a Ha. eapply Evolves_keeps_email; [exact Ev|].
    now apply (Ht t Hin). }
  destruct ev as [ev|i|j].
  - destruct ev as [ms|body| |i]; try (split; [|exact Hold]).
    + apply (OnlyStored_A_step (VariantA.Elapse ms)), Ho.
    + apply (OnlyStored_A_step (VariantA.PostSubscribe body)), Ho.
    + apply (OnlyStored_A_step VariantA.GetSiteStatus), Ho.
    + exact Ho.
  - simpl in *. destruct (nth_error (timers (VariantA.world s)) i) as [t|];
      [|split; assumption].
    destruct (due t <=? now (VariantA.world s)); [|split; assumption].
    split; [exact Ho|]. simpl in *. intros t0 Hin.
    apply in_app_or in Hin. destruct Hin as [Hin|[<-|[]]]; [now apply Hold|].
    apply incl_nil_l.
  - simpl in *. destruct (nth_error (VariantA.tasks s) j) as [t|] eqn:E;
      [|split; assumption].
    apply nth_error_In in E.
    destruct (A_resume_effect t (VariantA.world s))
      as (t' & R & _ & Hst & Hin & Hob & Hd).
    rewrite R in *. simpl in *.
    set (w := VariantA.world s) in *.
    set (w' := exec (VariantA.resume t) w) in *.
    assert (Em : emails w' = emails w).
    { unfold emails. destruct Hd as [->|(x & rest & _ & ->)]; [reflexivity|].
      apply map_email_update_first, deactivating_A. }
    split.
    + intros m Hm Hs. change (In (to m) (emails w')). rewrite Em.
      change (In m (outbox w')) in Hm.
      destruct Hob as [Hob|(x & rest & -> & Hob)]; rewrite Hob in Hm;
        [now apply Ho|].
      apply in_app_or in Hm. destruct Hm as [Hm|[<-|[]]]; [now apply Ho|].
      apply (Ht _ E). now left.
    + intros t0 H0. apply In_set_nth in H0. destruct H0 as [->|H0];
        [|now apply Hold].
      change (incl (map email (remaining t')) (emails w')).
      rewrite Em. destruct t as [|x rest|x rest|].
      * intros a Ha. apply in_map_iff in Ha. destruct Ha as (y & <- & Hy).
        apply in_map. now apply (Hst eq_refl).
      * eapply incl_tran; [|exact (Ht _ E)].
        apply incl_map, Hin. discriminate.
      * eapply incl_tran; [|exact (Ht _ E)].
        apply incl_map, Hin. discriminate.
      * eapply incl_tran; [|exact (Ht _ E)].
        apply incl_map, Hin. discriminate.
Qed.

Lemma HoldsStored_A_sys_run evs : forall s,
  HoldsStored s -> HoldsStored (VariantA.sys_run evs s).
Proof.
  induction evs as [|ev evs IH]; intros s H; [exact H|].
  apply (IH (VariantA.sys_step ev s)). now apply HoldsStored_A_sys_step.
Qed.

(** X21. Also when requests are handled between the awaits of the broadcast
    of the first server, in any order, a subscriber that is active stays
    stored and active, no stored address disappears and addresses that were
    unique stay unique; and when, as at the start of a process, every
    live-notification went to a stored address and the broadcasts hold
    stored subscribers only, every live-notification sent later goes to a
    stored address. *)
Theorem interleaved_broadcast_keeps_the_store_sound
    (s : VariantA.Sys) (evs : list VariantA.SysEvent) :
  let w := VariantA.world s in
  let w' := VariantA.world (VariantA.sys_run evs s) in
  (forall e, flag w e = Some false -> flag w' e = Some false) /\
  (exists l, emails w' = (emails w ++ l)%list) /\
  (NoDup (emails w) -> NoDup (emails w')) /\
  (HoldsStored s -> OnlyStored w').
Proof.
  cbv zeta. destruct (Evolves_A_sys_run evs s) as (E & N & F & _).
  repeat split; auto.
  intros H. now apply (HoldsStored_A_sys_run evs s).
Qed.





(** ** The single timer of the first server *)





(** ** One broadcast of the second server at a time *)

Lemma B_resume_Started v w :
  VariantB.resume (VariantB.Started v) w =
    if dbUp w (dbOps w) then
      if Js.gt (Js.sub (Js.of_ms (now w)) (Js.ToNumber v))
               (Js.of_ms VariantB.FOLLOW_UP_TIME_LIMIT)
      then (Ok VariantB.Finished,
            exec (console_log "Time limit exceeded. Skipping follow-up emails.")
                 (answered w))
      else VariantB.next (filter awaiting (docs w)) (answered w)
    else (Ok VariantB.Finished,
          snd (on_error MongoNetworkError (answered w))).
Proof.
  cbv [VariantB.resume try_catch bind Subscriber_find db_call Date_now].
  destruct (dbUp w (dbOps w)); [|reflexivity].
  fold (answered w). fold awaiting.
  change (docs (answered w)) with (docs w).
  change (now (answered w)) with (now w).
  destruct (Js.gt _ _); [reflexivity|].
  now destruct (filter awaiting (docs w)).
Qed.

Lemma InProgress_same w w' t :
  docs w' = docs w -> outbox w' = outbox w ->
  InProgress w t -> InProgress w' t.
Proof.
  unfold InProgress, emails, flag. intros D O. now rewrite D, O.
Qed.

Lemma InProgress_finish w t :
  InProgress w t -> (forall e, ~ pending t e) -> InProgress w VariantB.Finished.
Proof.
  intros (Nd & Hc & _) Hp. split; [exact Nd|].
  split; [|split; [constructor | split; intros y []]].
  intros e. destruct (Hc e) as [H|(H & [F|P])]; auto. now elim (Hp e).
Qed.

(** Requests and the passing of time leave the broadcast in progress as it
    is. *)
Lemma InProgress_quiet w w' t :
  InProgress w t -> Evolves w w' -> Quiet w w' -> InProgress w' t.
Proof.
  intros (Nd & Hc & Hn & Hs & Ht) Ev Q.
  pose proof Ev as (_ & Nd' & Fl & _).
  destruct Q as (_ & (m & O & G)).
  assert (L : forall e, live_count e (outbox w') = live_count e (outbox w)).
  { intros e. rewrite O, live_count_app, (live_count_confirmations e m G). lia. }
  split; [auto|].
  split; [|split; [exact Hn|split]].
  - intros e. rewrite L. destruct (Hc e) as [H|(H & [F|P])]; auto.
  - intros y Hy. apply (Evolves_stays_stored w); auto.
  - intros y Hy. rewrite L. auto.
Qed.

(** The broadcast in progress goes one step on. *)
Lemma InProgress_resume t w :
  InProgress w t ->
  (forall x rest, t = VariantB.Updating x rest -> dbUp w (dbOps w) = true) ->
  exists t',
    VariantB.resume t w = (Ok t', exec (VariantB.resume t) w) /\
    InProgress (exec (VariantB.resume t) w) t'.
Proof.
  intros H Hup. pose proof H as (Nd & Hc & Hn & Hs & Ht).
  unfold exec. destruct t as [v|x rest|x rest|].
  - rewrite B_resume_Started.
    assert (Hf : InProgress w VariantB.Finished).
    { apply (InProgress_finish w _ H). intros e []. }
    destruct (dbUp w (dbOps w));
      [|eexists; split; [reflexivity|]; simpl; revert Hf;
        now apply InProgress_same].
    destruct (Js.gt _ _).
    + eexists. split; [reflexivity|]. simpl. revert Hf.
      now apply InProgress_same.
    + destruct (filter awaiting (docs w)) as [|y r] eqn:F.
      * eexists. split; [reflexivity|]. simpl. revert Hf.
        now apply InProgress_same.
      * rewrite next_cons. eexists. split; [reflexivity|]. simpl.
        apply (InProgress_same w); try reflexivity.
        assert (Hin : forall z, In z (y :: r) ->
                  In z (docs w) /\ isComingSoon z = true).
        { intros z Hz. rewrite <- F in Hz. apply filter_In in Hz.
          destruct Hz as [Hz Ha]. split; [exact Hz|].
          unfold awaiting in Ha. now destruct (isComingSoon z). }
        split; [exact Nd|]. split; [|split; [|split]].
        -- intros e. destruct (Hc e) as [E|(E & [E'|[]])]; auto.
        -- simpl held. rewrite <- F. now apply NoDup_emails_filter.
        -- intros z Hz. apply flag_stored. apply in_map. now apply Hin.
        -- intros z Hz. destruct (Hin z Hz) as [Hd Ha].
           assert (Fz : flag w (email z) = Some true).
           { unfold flag. fold (flag_in (docs w) (email z)).
             now rewrite (flag_in_member _ _ Nd Hd), Ha. }
           destruct (Hc (email z)) as [E|(_ & [E|[]])]; [exact E | congruence].
  - rewrite resume_Sending. destruct (mailUp w (mailOps w)) eqn:Hm.
    + eexists. split; [reflexivity|]. simpl.
      inversion Hn as [|a l Ha Hl]; subst.
      assert (Hx : live_count (email x) (outbox w) = 0%nat)
        by (apply Ht; now left).
      split; [exact Nd|]. split; [|split; [|split]].
      * intros e. simpl outbox. rewrite live_count_app, live_count_one.
        destruct (String.eqb_spec (email x) e) as [E|E].
        -- subst e. right. rewrite Hx. split; [reflexivity|]. now right.
        -- rewrite Nat.add_0_r.
           destruct (Hc e) as [E0|(E1 & [F|[]])]; auto.
      * exact Hn.
      * exact Hs.
      * intros y Hy. simpl outbox. rewrite live_count_app, live_count_one.
        assert (E : email x <> email y).
        { intros E. apply Ha. rewrite E. now apply in_map. }
        apply String.eqb_neq in E. rewrite E, Nat.add_0_r.
        apply Ht. now right.
    + rewrite (send_and_mark_refused update_B x w Hm).
      eexists. split; [reflexivity|]. simpl.
      apply (InProgress_same w); try reflexivity.
      apply (InProgress_finish w _ H). intros e [].
  - rewrite resume_Updating.
    cbv [Subscriber_findOneAndUpdate bind db_call].
    rewrite (Hup x rest eq_refl). fold (answered w).
    set (w1 := with_docs (update_first (email x) update_B (docs (answered w)))
                         (answered w)).
    inversion Hn as [|a l Ha Hl]; subst.
    assert (Fl : forall e, flag w1 e =
              if String.eqb e (email x) then Some false else flag w e).
    { intros e. unfold w1. rewrite flag_update_first by apply deactivating_B.
      change (flag (answered w)) with (flag w).
      destruct (String.eqb e (email x)); [|reflexivity].
      assert (Sx : flag w (email x) <> None) by (apply Hs; now left).
      destruct (flag w (email x)); [reflexivity | now elim Sx]. }
    assert (H1 : InProgress w1 VariantB.Finished).
    { split; [|split; [|split; [constructor|split; intros y []]]].
      - unfold emails, w1. simpl.
        rewrite map_email_update_first by apply deactivating_B. exact Nd.
      - intros e. change (outbox w1) with (outbox w). rewrite Fl.
        destruct (String.eqb_spec e (email x)) as [E|E].
        + destruct (Hc e) as [E0|(E1 & _)]; auto.
        + destruct (Hc e) as [E0|(E1 & [F|P])]; auto.
          simpl in P. now elim E. }
    destruct rest as [|y r].
    + eexists. split; [reflexivity|]. simpl. revert H1.
      now apply InProgress_same.
    + rewrite next_cons. eexists. split; [reflexivity|]. simpl.
      destruct H1 as (Nd1 & Hc1 & _).
      split; [exact Nd1|]. split; [exact Hc1|].
      split; [exact Hl|]. split.
      * intros z Hz. rewrite Fl.
        destruct (String.eqb (email z) (email x)); [discriminate|].
        apply Hs. now right.
      * intros z Hz. change (outbox w1) with (outbox w). now apply Ht.
  - eexists. split; [reflexivity|]. exact H.
Qed.

Lemma idle_all_finished s t :
  idle s = true -> In t (VariantB.tasks s) -> t = VariantB.Finished.
Proof.
  unfold idle. intros H Hin. rewrite forallb_forall in H.
  specialize (H t Hin). now destruct t.
Qed.

Lemma OneBusy_sys_step ev s :
  OneBusy s -> (starts ev s = true -> idle s = true) ->
  update_applied ev s = true ->
  OneBusy (VariantB.sys_step ev s).
Proof.
  intros (j & Hothers & Hj) Hex Hup. destruct s as [w ts]. simpl in *.
  destruct ev as [ev|i|k].
  - pose proof (Evolves_B_step ev w) as Ev.
    destruct ev as [ms|body|body|body| |i]; simpl;
      try (exists j; split; [exact Hothers|];
           apply (InProgress_quiet w); [exact Hj | exact Ev |]).
    + now apply Quiet_same.
    + apply Quiet_B_subscribe.
    + apply Quiet_B_unsubscribe.
    + apply Quiet_B_check_access.
    + apply Quiet_B_site_status.
    + exists j. split; assumption.
  - simpl in *. destruct (nth_error (timers w) i) as [t|];
      [|exists j; split; assumption].
    destruct (due t <=? now w); [|exists j; split; assumption].
    specialize (Hex eq_refl).
    assert (Hall : forall t0, In t0 ts -> t0 = VariantB.Finished).
    { intros t0. apply (idle_all_finished (VariantB.mkSys w ts) t0 Hex). }
    exists (length ts). simpl. split.
    + intros k t0 Hk Hne. apply Hall.
      destruct (Nat.lt_ge_cases k (length ts)) as [Hlt|Hge].
      * rewrite nth_error_app1 in Hk by exact Hlt. now apply nth_error_In in Hk.
      * rewrite nth_error_app2 in Hk by exact Hge.
        destruct (k - length ts)%nat as [|n] eqn:D; [lia|].
        simpl in Hk. now destruct n.
    + rewrite nth_middle.
      assert (Hf : InProgress w VariantB.Finished).
      { destruct (nth_error ts j) as [tj|] eqn:Ej.
        - rewrite (nth_of_nth_error _ _ _ _ Ej) in Hj.
          apply nth_error_In in Ej. now rewrite (Hall tj Ej) in Hj.
        - apply nth_error_None in Ej. now rewrite nth_overflow in Hj. }
      destruct Hf as (Nd & Hc & _).
      split; [exact Nd|]. split; [|split; [constructor|]].
      * intros e. destruct (Hc e) as [E|(E & [F|[]])]; auto.
      * split; intros y [].
  - simpl. destruct (nth_error ts k) as [t|] eqn:Ek;
      [|exists j; split; assumption].
    destruct (Nat.eq_dec k j) as [->|Hne].
    + rewrite (nth_of_nth_error _ _ _ _ Ek) in Hj.
      assert (Hu : forall x rest, t = VariantB.Updating x rest ->
                                  dbUp w (dbOps w) = true).
      { intros x rest ->. unfold update_applied in Hup. simpl in Hup.
        now rewrite Ek in Hup. }
      destruct (InProgress_resume t w Hj Hu) as (t' & R & H').
      rewrite R. exists j. simpl. split.
      * intros k t0 Hk Hkj. rewrite nth_error_set_nth_other in Hk by exact Hkj.
        now apply (Hothers k).
      * now rewrite (nth_set_nth _ _ _ _ _ Ek).
    + pose proof (Hothers k t Ek Hne) as ->. simpl.
      rewrite (set_nth_same _ _ _ Ek). exists j. split; assumption.
Qed.

Lemma OneBusy_sys_run evs : forall s,
  OneBusy s -> one_at_a_time evs s = true -> updates_applied evs s = true ->
  OneBusy (VariantB.sys_run evs s).
Proof.
  induction evs as [|ev evs IH]; intros s H Hex Hup; [exact H|].
  simpl in Hex, Hup. apply Bool.andb_true_iff in Hex, Hup.
  destruct Hex as [Hev Hrest]. destruct Hup as [Hu Hus].
  apply (IH (VariantB.sys_step ev s)); [|exact Hrest|exact Hus].
  apply OneBusy_sys_step; [exact H| |exact Hu].
  intros Hs. rewrite Hs in Hev. exact Hev.
Qed.

(** C9 (as the server has it). From a process that has sent nothing yet,
    with unique addresses, when a broadcast starts only while no other is in
    progress and the store applies the status updates of the broadcasts, no
    address is sent more than one live-notification, whatever the requests
    that are handled between the awaits of a broadcast, the timers that
    fire, the mails the transport refuses and the other calls the store
    refuses. *)
Theorem one_broadcast_at_a_time_sends_at_most_once
    (w : World) (evs : list VariantB.SysEvent) (e : string) :
  outbox w = [] ->
  NoDup (emails w) ->
  one_at_a_time evs (VariantB.mkSys w []) = true ->
  updates_applied evs (VariantB.mkSys w []) = true ->
  (live_count e
     (outbox (VariantB.world (VariantB.sys_run evs (VariantB.mkSys w []))))
   <= 1)%nat.
Proof.
  intros Ho Hnd Hex Hup.
  assert (H0 : OneBusy (VariantB.mkSys w [])).
  { exists 0%nat. simpl. split; [intros [|k] t Hk; discriminate|].
    split; [exact Hnd|].
    split; [|split; [constructor | split; intros y []]].
    intros a. left. now rewrite Ho. }
  destruct (OneBusy_sys_run evs _ H0 Hex Hup) as (j & _ & (_ & Hc & _)).
  destruct (Hc e) as [H|[H _]]; lia.
Qed.

Lemma one_broadcast_at_a_time_witness :
  (live_count "a@b.com"
     (outbox (VariantB.world
                (VariantB.sys_run requests_between_awaits
                   (VariantB.mkSys
                      (fresh_process [] 0 (always true) (always true)) []))))
   <= 1)%nat.
Proof.
  apply (one_broadcast_at_a_time_sends_at_most_once
           (fresh_process [] 0 (always true) (always true))
           requests_between_awaits "a@b.com").
  - reflexivity.
  - constructor.
  - reflexivity.
  - reflexivity.
Defined.

(** What that run leaves behind: each of the two subscribers has its
    confirmation and one live-notification, and both are active. *)
Example requests_between_awaits_outcome :
  let s := VariantB.sys_run requests_between_awaits
             (VariantB.mkSys (fresh_process [] 0 (always true) (always true)) []) in
  outbox (VariantB.world s) =
    [confirmation "a@b.com"; confirmation "c@d.org";
     liveNotification "a@b.com"; liveNotification "c@d.org"] /\
  docs (VariantB.world s) =
    [mkSubscriber "a@b.com" false; mkSubscriber "c@d.org" false] /\
  VariantB.tasks s = [VariantB.Finished; VariantB.Finished].
Proof. vm_compute. repeat split. Qed.

(** C9 (as stated) fails: with the two broadcasts of [overlapping] in
    progress at once, a@b.com is sent the live-notification twice; the test
    on [followUpEmailSent] lets the second one through. *)
Lemma overlapping_broadcasts_send_twice :
  let s := VariantB.sys_run overlapping
             (VariantB.mkSys (fresh_process [] 0 (always true) (always true)) []) in
  live_count "a@b.com" (outbox (VariantB.world s)) = 2%nat /\
  flag (VariantB.world s) "a@b.com" = Some false /\
  ~ (live_count "a@b.com" (outbox (VariantB.world s)) <= 1)%nat.
Proof.
  vm_compute. repeat split. intros H.
  inversion H as [|n H1]. inversion H1.
Qed.

(** In that run the second broadcast starts while the first one is in
    progress. *)
Example overlapping_is_not_one_at_a_time :
  one_at_a_time overlapping
    (VariantB.mkSys (fresh_process [] 0 (always true) (always true)) [])
  = false.
Proof. reflexivity. Qed.

(** The store has to apply the updates: with one broadcast at a time and
    the update of a@b.com refused, the next broadcast sends a@b.com the
    live-notification again. *)
Example refused_update_sends_again :
  let s0 := VariantB.mkSys (fresh_process [] 0 refuse_third (always true)) [] in
  let s := VariantB.sys_run update_refused s0 in
  one_at_a_time update_refused s0 = true /\
  updates_applied update_refused s0 = false /\
  live_count "a@b.com" (outbox (VariantB.world s)) = 2%nat /\
  flag (VariantB.world s) "a@b.com" = Some true.
Proof. vm_compute. repeat split. Qed.
